(** * nx-cugraph demo notebook: the Jaccard movie recommender

    A shallow embedding of the code cells of
    [notebooks/demo/nx_cugraph_jaccard_movie_recommender.ipynb] that shape
    the MovieLens tables, build the id-to-title dictionary, build the list
    of node pairs handed to [nx.jaccard_coefficient], and rank, filter and
    print the recommendation.

    Conventions.
    - Similarity scores and ratings are binary64 floats ([PrimFloat.float]);
      Python's [<], [<=], [==] on floats are [PrimFloat.ltb], [PrimFloat.leb],
      [PrimFloat.eqb].  The [float32] rating column holds multiples of 0.5,
      which binary64 represents exactly and compares identically.
    - [int32] columns are [Z] with the 32-bit wrap-around written out.
    - Python [str] is [string]; a [dict] is a [gmap]; a [list] is a [list].
    - Exceptions are values of [exn]; a cell that can raise returns an
      [outcome] together with the notebook state reached when it stopped.
    - Calls into NetworkX ([jaccard_coefficient], [Graph.neighbors]) are
      outside the notebook: their results enter the model as inputs, and
      where a function of the notebook makes the call itself, so does the
      exception the call may raise. *)

From Stdlib Require Import ZArith Floats Lia Ascii String.
From stdpp Require Import gmap strings list pretty sorting.

#[local] Set Warnings "-inexact-float".
#[local] Open Scope Z_scope.

(** ** Order of binary64 floats

    The kernel specifies [PrimFloat.ltb] and friends through [SFcompare] on
    [spec_float].  [SFcompare] is a lexicographic comparison of a rank
    triple, undefined as soon as one side is NaN. *)
Module PyFloat.

Definition sf_rank (f : spec_float) : Z * Z * Z :=
  match f with
  | S754_zero _ => (0, 0, 0)
  | S754_infinity true => (-2, 0, 0)
  | S754_infinity false => (2, 0, 0)
  | S754_nan => (0, 0, 0)
  | S754_finite true m e => (-1, - e, - Z.pos m)
  | S754_finite false m e => (1, e, Z.pos m)
  end.

Definition sf_nan (f : spec_float) : bool :=
  match f with S754_nan => true | _ => false end.

Definition lex3 (x y : Z * Z * Z) : comparison :=
  let '(a1, a2, a3) := x in
  let '(b1, b2, b3) := y in
  match a1 ?= b1 with
  | Eq => match a2 ?= b2 with Eq => a3 ?= b3 | c => c end
  | c => c
  end.

Definition lt3 (x y : Z * Z * Z) : Prop :=
  let '(a1, a2, a3) := x in
  let '(b1, b2, b3) := y in
  a1 < b1 \/ (a1 = b1 /\ (a2 < b2 \/ (a2 = b2 /\ a3 < b3))).

Definition sf_cmp (f g : spec_float) : option comparison :=
  if sf_nan f || sf_nan g then None else Some (lex3 (sf_rank f) (sf_rank g)).

(** A similarity value as the data model has it: a float in [0, 1].
    Python: [0 <= s <= 1]; false for NaN. *)
Definition in_unit (s : float) : bool :=
  PrimFloat.leb 0 s && PrimFloat.leb s 1.

End PyFloat.

(** ** The Python values and built-ins the notebook uses *)
Module Py.

(** Exceptions; [K] is the type of dictionary keys and of graph nodes.
    [NodeNotFound] is NetworkX's exception for a node that is not in the
    graph. *)
Inductive exn (K : Type) : Type :=
  | KeyError (k : K)
  | ValueError
  | IndexError
  | NodeNotFound (k : K).
Arguments KeyError {K} k.
Arguments ValueError {K}.
Arguments IndexError {K}.
Arguments NodeNotFound {K} k.

Inductive outcome (K A : Type) : Type :=
  | Ok (a : A)
  | Raise (e : exn K).
Arguments Ok {K A} a.
Arguments Raise {K A} e.

(** A statement sequence over a store [S]: it ends normally with a value or
    stops at the first uncaught exception, and either way leaves the store
    as mutated so far. *)
Definition stmt (K S A : Type) : Type := S -> outcome K A * S.

#[export] Instance stmt_ret {K S} : MRet (stmt K S) :=
  λ A (a : A) st, (Ok a, st).
#[export] Instance stmt_bind {K S} : MBind (stmt K S) :=
  λ A B (f : A -> stmt K S B) (c : stmt K S A) st,
    match c st with
    | (Ok a, st') => f a st'
    | (Raise e, st') => (Raise e, st')
    end.

Definition get {K S} : stmt K S S := λ st, (Ok st, st).
Definition modify {K S} (f : S -> S) : stmt K S unit := λ st, (Ok tt, f st).
Definition lift {K S A} (o : outcome K A) : stmt K S A := λ st, (o, st).

(** [d[k]] on a dict. *)
Definition dict_getitem `{Countable K} {V} (d : gmap K V) (k : K) : outcome K V :=
  match d !! k with
  | Some v => Ok v
  | None => Raise (KeyError k)
  end.

(** [x in l] on a list: the elements are compared with [==] from the left. *)
Fixpoint list_contains `{EqDecision A} (x : A) (l : list A) : bool :=
  match l with
  | [] => false
  | y :: l' => if decide (y = x) then true else list_contains x l'
  end.

(** Slice bounds: a negative bound counts from the end, then both are
    clamped to the list; [None] is an omitted bound. *)
Definition slice_bound (len : Z) (dflt : Z) (i : option Z) : Z :=
  match i with
  | None => dflt
  | Some i => if i <? 0 then Z.max 0 (i + len) else Z.min i len
  end.

(** [l[start:stop]]. *)
Definition slice {A} (l : list A) (start stop : option Z) : list A :=
  let len := Z.of_nat (length l) in
  let a := slice_bound len 0 start in
  let b := slice_bound len len stop in
  take (Z.to_nat (b - a)) (drop (Z.to_nat a) l).

(** [l[i]]. *)
Definition list_getitem {K A} (l : list A) (i : Z) : outcome K A :=
  let len := Z.of_nat (length l) in
  let j := if i <? 0 then i + len else i in
  if (j <? 0) || (len <=? j) then Raise IndexError
  else match l !! Z.to_nat j with
       | Some x => Ok x
       | None => Raise IndexError
       end.

(** *** [list.sort(key=..., reverse=...)]

    CPython sorts stably and compares keys with [<] only; with
    [reverse=True] it reverses the list, sorts it ascending and reverses it
    again, which keeps elements with equal keys in their original order.
    The ascending sort is modelled by a stable insertion sort (CPython
    runs a binary insertion sort on short lists and merges sorted runs of
    longer ones).  On keys where [<] is a
    strict weak order (floats without NaN) the contract of [list.sort] has
    one solution ([ListSort.list_sort_unique]), so the model is exact
    there whatever procedure CPython runs.  On keys that hold a NaN the
    result of [list.sort] depends on the comparisons CPython happens to
    make and the model's list may be another arrangement of the same
    elements; what is stated about the order of a sorted list is stated
    for keys without NaN. *)
Section list_sort.
Context {A : Type} (key : A -> float).

Fixpoint insert_sorted (x : A) (l : list A) : list A :=
  match l with
  | [] => [x]
  | y :: l' =>
      if PrimFloat.ltb (key y) (key x) then y :: insert_sorted x l'
      else x :: y :: l'
  end.

Definition stable_sort (l : list A) : list A := foldr insert_sorted [] l.

Definition list_sort (reverse : bool) (l : list A) : list A :=
  if reverse then rev (stable_sort (rev l)) else stable_sort l.

(** The elements whose key is [== s]. *)
Definition same_key (s : float) (x : A) : bool := PrimFloat.eqb (key x) s.

(** [x] may stand before [y] in an ascending list: not [key y < key x]. *)
Definition asc (x y : A) : Prop := PrimFloat.ltb (key y) (key x) = false.

(** [x] may stand before [y] in a descending list: [key y <= key x]. *)
Definition desc (x y : A) : Prop := PrimFloat.leb (key y) (key x) = true.

Definition no_nan (l : list A) : Prop :=
  Forall (λ x, PrimFloat.is_nan (key x) = false) l.
End list_sort.

(** [a] occurs at a position of [l] before a position holding [b]. *)
Definition before {A} (a b : A) (l : list A) : Prop :=
  exists i j : nat, (i < j)%nat /\ l !! i = Some a /\ l !! j = Some b.

(** *** Strings *)

Definition comma : ascii := ","%char.

(** [s.split(sep)] for a one-character separator: never empty. *)
Fixpoint str_split (sep : ascii) (s : string) : list string :=
  match s with
  | EmptyString => [EmptyString]
  | String c s' =>
      if Ascii.eqb c sep then EmptyString :: str_split sep s'
      else match str_split sep s' with
           | f :: fs => String c f :: fs
           | [] => [String c EmptyString]
           end
  end.

(** [sep.join(l)]. *)
Fixpoint str_join (sep : string) (l : list string) : string :=
  match l with
  | [] => EmptyString
  | [x] => x
  | x :: l' => x +:+ sep +:+ str_join sep l'
  end.

(** [c in s] for a character. *)
Fixpoint str_contains (c : ascii) (s : string) : bool :=
  match s with
  | EmptyString => false
  | String d s' => Ascii.eqb d c || str_contains c s'
  end.

(** *** [int(s)] on ASCII text

    Surrounding whitespace is dropped (on an ASCII [str]: space and the
    characters 9 to 13), then an optional sign, then decimal digits in
    which single underscores may separate digits; more than
    [int_max_str_digits] digits are refused.  [None] is [ValueError].
    Digits and spaces outside ASCII are not modelled. *)
Definition is_space (c : ascii) : bool :=
  let n := nat_of_ascii c in
  (Nat.eqb n 32 || (Nat.leb 9 n && Nat.leb n 13))%bool.

(** The default of [sys.get_int_max_str_digits()]. *)
Definition int_max_str_digits : nat := 4300.

Definition digit_val (c : ascii) : option Z :=
  let n := nat_of_ascii c in
  if (Nat.leb 48 n && Nat.leb n 57)%bool then Some (Z.of_nat (n - 48)) else None.

Fixpoint lstrip (s : string) : string :=
  match s with
  | String c s' => if is_space c then lstrip s' else s
  | EmptyString => EmptyString
  end.

Fixpoint rstrip (s : string) : string :=
  match s with
  | EmptyString => EmptyString
  | String c s' =>
      match rstrip s' with
      | EmptyString => if is_space c then EmptyString else String c EmptyString
      | t => String c t
      end
  end.

Definition strip (s : string) : string := rstrip (lstrip s).

(** The digits after a first digit of value [acc]. *)
Fixpoint int_digits (acc : Z) (s : string) : option Z :=
  match s with
  | EmptyString => Some acc
  | String c s' =>
      if Ascii.eqb c "_"%char then
        match s' with
        | String d s'' =>
            match digit_val d with
            | Some v => int_digits (10 * acc + v) s''
            | None => None
            end
        | EmptyString => None
        end
      else
        match digit_val c with
        | Some v => int_digits (10 * acc + v) s'
        | None => None
        end
  end.

(** The number of digits of a numeral, underscores left out. *)
Fixpoint count_digits (s : string) : nat :=
  match s with
  | EmptyString => 0
  | String c s' => if Ascii.eqb c "_"%char then count_digits s' else S (count_digits s')
  end.

Definition int_unsigned (s : string) : option Z :=
  match s with
  | String d s' =>
      match digit_val d with
      | Some v =>
          match int_digits v s' with
          | Some z => if Nat.ltb int_max_str_digits (count_digits s) then None else Some z
          | None => None
          end
      | None => None
      end
  | EmptyString => None
  end.

Definition int (s : string) : option Z :=
  match strip s with
  | String c s' =>
      if Ascii.eqb c "-"%char then Z.opp <$> int_unsigned s'
      else if Ascii.eqb c "+"%char then int_unsigned s'
      else int_unsigned (String c s')
  | EmptyString => None
  end.

(** A [str] placed in an f-string is printed as it is. *)
#[export] Instance pretty_str : Pretty string := λ s, s.

(** *** More built-ins *)

(** [dict.get(k, default)]. *)
Definition dict_get `{Countable K} {V} (d : gmap K V) (k : K) (dflt : V) : V :=
  match d !! k with
  | Some v => v
  | None => dflt
  end.

(** [range(n)]: empty when [n <= 0]. *)
Definition range (n : Z) : list Z := seqZ 0 n.

(** [for x in l: body]: the first exception ends the loop. *)
Fixpoint for_each {K S A} (l : list A) (body : A -> stmt K S unit) : stmt K S unit :=
  match l with
  | [] => mret tt
  | x :: l' => body x;; for_each l' body
  end.

(** [max(l, key=key)]: CPython keeps the first item and replaces it by a
    later one only when [key(item) > key(best)]; an empty argument is a
    [ValueError]. *)
Section max_key.
Context {A : Type} (key : A -> float).

Fixpoint max_from (best : A) (l : list A) : A :=
  match l with
  | [] => best
  | x :: l' => max_from (if PrimFloat.ltb (key best) (key x) then x else best) l'
  end.

Definition max_key {K} (l : list A) : outcome K A :=
  match l with
  | [] => Raise ValueError
  | x :: l' => Ok (max_from x l')
  end.
End max_key.

(** [sorted(l)] on a list of ints: a stable ascending sort asking [<]. *)
Fixpoint insert_int (x : Z) (l : list Z) : list Z :=
  match l with
  | [] => [x]
  | y :: l' => if y <? x then y :: insert_int x l' else x :: y :: l'
  end.

Definition sorted_ints (l : list Z) : list Z := foldr insert_int [] l.

End Py.

(** ** The notebook *)
Module Notebook.
Import Py.

(** *** Reading the ratings (the cell that defines [ratings_df]) *)

(** A row of [ratings_df] once the [timestamp] column is dropped. *)
Record rating_row : Type := { userId : Z; movieId : Z; rating : float }.

(** The largest value of an [int32] column. *)
Definition int32_max : Z := 2 ^ 31 - 1.

(** Addition on an [int32] column wraps silently. *)
Definition wrap32 (z : Z) : Z := (z + 2 ^ 31) mod 2 ^ 32 - 2 ^ 31.

(** [Series.unique()]: the distinct values in order of first appearance. *)
Fixpoint unique `{EqDecision A} (l : list A) : list A :=
  match l with
  | [] => []
  | x :: l' => x :: List.filter (λ y, negb (bool_decide (y = x))) (unique l')
  end.

(** [int(Series.max())]: the maximum of an empty column is NaN, which
    [int] refuses with [ValueError]. *)
Definition series_max (col : list Z) : outcome Z Z :=
  match col with
  | [] => Raise ValueError
  | x :: col' => Ok (foldl Z.max x col')
  end.

Record ratings : Type := {
  ratings_df : list rating_row;
  max_movie_id : Z;
  all_user_ids : list Z;
  all_movie_ids : list Z
}.

(** One row of [ratings_df["userId"] + n]. *)
Definition add_to_userId (n : Z) (r : rating_row) : rating_row :=
  {| userId := wrap32 (userId r + n); movieId := movieId r; rating := rating r |}.

(** The cell from [ratings_df = pd.read_csv(...)] to [all_movie_ids = ...],
    given the rows read from the file. *)
Definition read_ratings (rows : list rating_row) : outcome Z ratings :=
  (* ratings_df["userId"][0]: label 0 of an empty column is a KeyError *)
  match rows with
  | [] => Raise (KeyError 0)
  | _ :: _ =>
      (* max_movie_id = int(ratings_df["movieId"].max()) *)
      match series_max (movieId <$> rows) with
      | Raise e => Raise e
      | Ok mx =>
          (* ratings_df["userId"] = ratings_df["userId"] + max_movie_id *)
          let df := add_to_userId mx <$> rows in
          Ok {| ratings_df := df;
                max_movie_id := mx;
                all_user_ids := unique (userId <$> df);
                all_movie_ids := unique (movieId <$> df) |}
      end
  end.

(** *** Good reviews *)

(** [ratings_df[ratings_df["rating"] >= 3]] *)
Definition good_ratings_df (df : list rating_row) : list rating_row :=
  List.filter (λ r, PrimFloat.leb 3 (rating r)) df.

Definition good_user_ids (df : list rating_row) : list Z :=
  unique (userId <$> good_ratings_df df).

Definition good_movie_ids (df : list rating_row) : list Z :=
  unique (movieId <$> good_ratings_df df).

(** *** The pairs handed to [nx.jaccard_coefficient]

    [[(movie_id, n) for n in good_movie_ids[1:] if n != movie_id]], as
    written both in the top-level cell (with [highest_rated_movie]) and in
    [print_similar_movies]. *)
Definition ebunch (movie_id : Z) (good_ids : list Z) : list (Z * Z) :=
  (λ n, (movie_id, n)) <$>
    List.filter (λ n, negb (bool_decide (n = movie_id))) (slice good_ids (Some 1) None).

(** *** The id-to-title dictionary *)
Section name_map.
(** Python's [int] on a [str]: [None] stands for [ValueError], the only
    exception it raises there. *)
Variable int_of_str : string -> option Z.

(** One iteration of [for line in f.readlines()]; [continue] and the end
    of the body both hand the dictionary to the next iteration. *)
Definition name_map_line (m : gmap Z string) (line : string)
  : outcome Z (gmap Z string) :=
  (* items = line.split(",") *)
  let items := str_split comma line in
  match list_getitem items 0 with
  | Raise e => Raise e
  | Ok item0 =>
      (* try: mid = int(items[0]) *)
      match int_of_str item0 with
      | None =>
          (* except ValueError: continue *)
          Ok m
      | Some mid =>
          (* mname = ",".join(items[1:-1]) *)
          let mname := str_join "," (slice items (Some 1) (Some (-1))) in
          (* movie_id_name_map[mid] = mname *)
          Ok (<[mid := mname]> m)
      end
  end.

Fixpoint name_map_loop (m : gmap Z string) (lines : list string)
  : outcome Z (gmap Z string) :=
  match lines with
  | [] => Ok m
  | line :: lines' =>
      match name_map_line m line with
      | Ok m' => name_map_loop m' lines'
      | Raise e => Raise e
      end
  end.

(** The cell, given the result of [f.readlines()]. *)
Definition movie_id_name_map (lines : list string) : outcome Z (gmap Z string) :=
  name_map_loop ∅ lines.
End name_map.

(** *** Ranking and recommendation *)
Section recommend.
Context `{Countable node} `{!Pretty node}.

(** A tuple [(u, v, p)] yielded by [nx.jaccard_coefficient]. *)
#[local] Abbreviation sim := (node * node * float)%type.

(** The variables of the cell. *)
Record nb_state : Type := {
  jacc_coeffs : list sim;
  movies_seen : list node;
  recommendations : list node;
  stdout : list string
}.

Definition set_jacc_coeffs (v : list sim) (st : nb_state) : nb_state :=
  {| jacc_coeffs := v; movies_seen := movies_seen st;
     recommendations := recommendations st; stdout := stdout st |}.
Definition set_movies_seen (v : list node) (st : nb_state) : nb_state :=
  {| jacc_coeffs := jacc_coeffs st; movies_seen := v;
     recommendations := recommendations st; stdout := stdout st |}.
Definition set_recommendations (v : list node) (st : nb_state) : nb_state :=
  {| jacc_coeffs := jacc_coeffs st; movies_seen := movies_seen st;
     recommendations := v; stdout := stdout st |}.
Definition print (line : string) : stmt node nb_state unit :=
  modify (λ st, {| jacc_coeffs := jacc_coeffs st; movies_seen := movies_seen st;
                   recommendations := recommendations st;
                   stdout := stdout st ++ [line] |}).

(** [lambda t: t[2]] *)
Definition coeff (t : sim) : float := t.2.

(** The tuples a comprehension [... for (_, mid, _) in coeffs if mid not in
    seen] lets through, and the list it builds from them. *)
Definition unseen_tuples (coeffs : list sim) (seen : list node) : list sim :=
  List.filter (λ '(_, mid, _), negb (list_contains mid seen)) coeffs.
Definition unseen_mids (coeffs : list sim) (seen : list node) : list node :=
  (λ '(_, mid, _), mid) <$> unseen_tuples coeffs seen.

(** From [jacc_coeffs.sort(...)] to [recommendations = [...]];
    [neighbors] is what [good_user_movie_G.neighbors(user)] yields. *)
Definition ranking_step (neighbors : list node) : stmt node nb_state unit :=
  (* jacc_coeffs.sort(key=lambda t: t[2], reverse=True) *)
  modify (λ st, set_jacc_coeffs (list_sort coeff true (jacc_coeffs st)) st);;
  (* movies_seen = list(good_user_movie_G.neighbors(user)) *)
  modify (set_movies_seen neighbors);;
  (* recommendations = [mid for (_, mid, _) in jacc_coeffs
                        if mid not in movies_seen] *)
  modify (λ st, set_recommendations (unseen_mids (jacc_coeffs st) (movies_seen st)) st).

(** [f"User ID {user} might like {movie_id_name_map[mid]} (movie ID: {mid})"] *)
Definition might_like (user : node) (name : string) (mid : node) : string :=
  "User ID " +:+ pretty user +:+ " might like " +:+ name
  +:+ " (movie ID: " +:+ pretty mid +:+ ")".

(** [if len(recommendations) > 0: ... print(...)] *)
Definition top_match_step (user : node) (names : gmap node string)
  : stmt node nb_state unit :=
  st ← get;
  (* if len(recommendations) > 0: *)
  if bool_decide (0 < length (recommendations st))%nat then
    (* mid = recommendations[0] *)
    mid ← lift (list_getitem (recommendations st) 0);
    (* print(f"... {movie_id_name_map[mid]} ...") *)
    name ← lift (dict_getitem names mid);
    print (might_like user name mid)
  else mret tt.

(** What a reader of the notebook can observe of a step started in [st]:
    an exception, or something printed. *)
Definition signalled (r : outcome node unit * nb_state) (st : nb_state) : Prop :=
  (exists e, r.1 = Raise e) \/ stdout r.2 <> stdout st.

(** The whole cell. *)
Definition recommend_cell (user : node) (neighbors : list node)
    (names : gmap node string) : stmt node nb_state unit :=
  ranking_step neighbors;; top_match_step user names.

End recommend.
Arguments nb_state node : clear implicits.

(** *** The entries of the id-to-title dictionary, line by line *)
Section name_map_entries.
Variable int_of_str : string -> option Z.

(** What one line contributes: nothing, or a key with its label. *)
Definition line_entry (line : string) : option (Z * string) :=
  match str_split comma line with
  | [] => None
  | item0 :: rest =>
      match int_of_str item0 with
      | None => None
      | Some mid => Some (mid, str_join "," (slice (item0 :: rest) (Some 1) (Some (-1))))
      end
  end.

(** The label of the last line that parses to [k], if any. *)
Definition last_label (k : Z) (lines : list string) : option string :=
  snd <$> last (List.filter (λ e, bool_decide (e.1 = k)) (omap line_entry lines)).
End name_map_entries.

(** *** The statistics printed after the good reviews are selected *)

(** The cell prints six lines; the two averages divide by the number of
    users.  [ratio a b] stands for the text of [f"{a/b:.2f}"] when [b] is
    not zero. *)
Inductive stats_result : Type :=
  | StatsPrinted (lines : list string)
  | StatsZeroDivisionError (printed : list string).

Definition stats_cell (ratio : nat -> nat -> string) (r : ratings) : stats_result :=
  let good := good_ratings_df (ratings_df r) in
  let l1 := "total number of users: " +:+ pretty (length (all_user_ids r)) in
  let l2 := "total number of reviews: " +:+ pretty (length (ratings_df r)) in
  if bool_decide (length (all_user_ids r) = 0%nat) then StatsZeroDivisionError [l1; l2]
  else
    let l3 := "average number of total reviews/user: "
              +:+ ratio (length (ratings_df r)) (length (all_user_ids r)) in
    let l4 := "total number of users with good ratings: "
              +:+ pretty (length (good_user_ids (ratings_df r))) in
    let l5 := "total number of good reviews: " +:+ pretty (length good) in
    if bool_decide (length (good_user_ids (ratings_df r)) = 0%nat)
    then StatsZeroDivisionError [l1; l2; l3; l4; l5]
    else
      let l6 := "average number of good reviews/user: "
                +:+ ratio (length good) (length (good_user_ids (ratings_df r))) in
      StatsPrinted [l1; l2; l3; l4; l5; l6].

(** *** Picking a user and one of their highest rated movies *)

(** [good_user_movie_G[user]]: the neighbours of [user] with the attributes
    of the edges, in the order the edges were added (a dict: no neighbour
    occurs twice). *)
Abbreviation adjacency := (list (Z * gmap string float)).

(** [user_reviews[n].get("rating", 0)] for a key [n] of [user_reviews]. *)
Definition review_rating (user_reviews : adjacency) (n : Z) : float :=
  match List.find (λ e, bool_decide (e.1 = n)) user_reviews with
  | Some (_, attrs) => dict_get attrs "rating" 0%float
  | None => 0%float
  end.

(** The three assignments of the cell ([G] maps a node to its adjacency);
    the [print] that follows formats a float and is left out. *)
Definition pick_user_and_movie (good_user_ids : list Z) (G : gmap Z adjacency)
  : outcome Z (Z * Z) :=
  (* user = good_user_ids[321] *)
  match list_getitem good_user_ids 321 with
  | Raise e => Raise e
  | Ok user =>
      (* user_reviews = good_user_movie_G[user] *)
      match dict_getitem G user with
      | Raise e => Raise e
      | Ok user_reviews =>
          (* highest_rated_movie = max(user_reviews, key=lambda n: ...) *)
          match max_key (review_rating user_reviews) (user_reviews.*1) with
          | Raise e => Raise e
          | Ok highest_rated_movie => Ok (user, highest_rated_movie)
          end
      end
  end.

(** *** [print_similar_movies(movie_id, n=10)]

    [jaccard_coefficient] stands for
    [list(nx.jaccard_coefficient(good_user_movie_G, ebunch))], a call into
    NetworkX: it returns the scored pairs or raises (NetworkX raises
    [NodeNotFound] for a pair with a node that is not in the graph, as is
    a [movie_id] nobody rated 3 or more).  The call comes first, so what
    it raises leaves the function before anything is printed.
    [jacc_coeffs] is a local variable of the function, so of the
    notebook's variables only [stdout] changes. *)
Definition similar_header (name : string) : string :=
  "Movies similar to " +:+ name +:+ ":".
Definition similar_row (movieId : Z) (name : string) : string :=
  "ID " +:+ pretty movieId +:+ ", " +:+ name.

(** The state after [lines] are printed, and the rows of a list of tuples. *)
Definition printed (lines : list string) (st : nb_state Z) : nb_state Z :=
  {| jacc_coeffs := jacc_coeffs st; movies_seen := movies_seen st;
     recommendations := recommendations st; stdout := stdout st ++ lines |}.
Definition similar_rows (names : gmap Z string) (ts : list (Z * Z * float)) : list string :=
  (λ t, similar_row t.1.2 (dict_get names t.1.2 "")) <$> ts.

Definition print_similar_movies
    (jaccard_coefficient : list (Z * Z) -> outcome Z (list (Z * Z * float)))
    (good_movie_ids : list Z) (names : gmap Z string)
    (movie_id : Z) (n : Z) : stmt Z (nb_state Z) unit :=
  (* ebunch = [(movie_id, n) for n in good_movie_ids[1:] if n != movie_id] *)
  let ebunch := ebunch movie_id good_movie_ids in
  (* jacc_coeffs = list(nx.jaccard_coefficient(good_user_movie_G, ebunch)) *)
  jacc_coeffs ← lift (jaccard_coefficient ebunch);
  (* jacc_coeffs.sort(key=lambda t: t[2], reverse=True) *)
  let jacc_coeffs := list_sort coeff true jacc_coeffs in
  (* print(f"Movies similar to {movie_id_name_map[movie_id]}:") *)
  name ← lift (dict_getitem names movie_id);
  print (similar_header name);;
  (* for i in range(n): *)
  for_each (range n) (λ i,
    (* (_, movieId, similarity) = jacc_coeffs[i] *)
    t ← lift (list_getitem jacc_coeffs i);
    (* print(f"ID {int(movieId)}, {movie_id_name_map[movieId]}") *)
    name ← lift (dict_getitem names t.1.2);
    print (similar_row t.1.2 name)).

(** The default of the parameter [n]. *)
Definition print_similar_movies_default_n : Z := 10.

End Notebook.

(** ** The second notebook: comparing two PageRank results

    [sorted(nx_pr_results) == sorted(nxcg_pr_results)]: [sorted] of a dict
    sorts its keys, the nodes, which are ints. *)
Module Centrality.
Import Py.

(** A dict of scores per node.  A dict lists its keys in insertion order;
    [keys] is one listing of them. *)
Definition dict_keys (d : gmap Z float) : list Z := (map_to_list d).*1.

Definition same_rank_nodes (nx_pr_results nxcg_pr_results : gmap Z float) : bool :=
  bool_decide (sorted_ints (dict_keys nx_pr_results) =
               sorted_ints (dict_keys nxcg_pr_results)).

End Centrality.

(** ** Fetching the dataset (the first code cell that touches files)

    The file system is the map from the paths that exist to their content;
    [requests.get] and the reading of a zip archive are outside the
    notebook: [serve url] is the body the server returns and [members z]
    the files an archive with content [z] holds, by name. *)
Module Download.
Import Py.

Record world : Type := {
  files : gmap string string;
  requested : list string
}.

Definition ratings_csv : string := "ml-latest/ratings.csv".
Definition movies_csv : string := "ml-latest/movies.csv".
Definition zip_file : string := "ml-latest.zip".
Definition url : string := "https://files.grouplens.org/datasets/movielens/" +:+ zip_file.

(** [os.path.exists(p)] *)
Definition exists_ (p : string) (w : world) : bool := bool_decide (is_Some (files w !! p)).

(** [with open(p, "wb") as f: f.write(content)] *)
Definition write_file (p content : string) : stmt string world unit :=
  modify (λ w, {| files := <[p := content]> (files w); requested := requested w |}).

(** [req = requests.get(u)]; the request is recorded. *)
Definition requests_get (serve : string -> string) (u : string)
  : stmt string world string :=
  λ w, (Ok (serve u), {| files := files w; requested := requested w ++ [u] |}).

(** [z.extract(member)] on the archive stored at [zip]: the member is
    written at its own path, over whatever is there; a name the archive
    does not hold is a [KeyError]. *)
Definition extract (members : string -> gmap string string) (zip member : string)
  : stmt string world unit :=
  w ← get;
  z ← lift (dict_getitem (files w) zip);
  content ← lift (dict_getitem (members z) member);
  write_file member content.

Definition download_cell (serve : string -> string)
    (members : string -> gmap string string) : stmt string world unit :=
  w ← get;
  (* if not os.path.exists(ratings_csv) or not os.path.exists(movies_csv): *)
  if negb (exists_ ratings_csv w) || negb (exists_ movies_csv w) then
    (* if not os.path.exists(zip_file): *)
    (if negb (exists_ zip_file w) then
       req ← requests_get serve url;
       write_file zip_file req
     else mret tt);;
    (* with ZipFile(zip_file, "r") as z: *)
    extract members zip_file ratings_csv;;
    extract members zip_file movies_csv
  else mret tt.



End Download.

(** ** Sample inputs *)
Module Examples.
Import Py Notebook.

Definition LF : string := String "010"%char EmptyString.
Definition dquote : string := String "034"%char EmptyString.

(** The first line of [movies.csv] and two of its rows. *)
Definition header_line : string := "movieId,title,genres" +:+ LF.
Definition mulan_line : string :=
  "1907,Mulan (1998),Adventure|Animation|Children|Comedy|Drama|Musical|Romance" +:+ LF.
Definition groove_line : string :=
  "4016," +:+ dquote +:+ "Emperor's New Groove, The (2000)" +:+ dquote
  +:+ ",Adventure|Animation|Children|Comedy|Fantasy" +:+ LF.
Definition groove_title : string :=
  dquote +:+ "Emperor's New Groove, The (2000)" +:+ dquote.

(** Three good reviews; the pairs for movie 20 are built from them. *)
Definition three_good_reviews : list rating_row :=
  [ {| userId := 11; movieId := 10; rating := 4 |};
    {| userId := 11; movieId := 20; rating := 5 |};
    {| userId := 12; movieId := 30; rating := 3.5 |} ].

(** Raw ratings whose first user id is the largest [int32]. *)
Definition raw_ratings : list rating_row :=
  [ {| userId := 2147483647; movieId := 5; rating := 4 |};
    {| userId := 1; movieId := 7; rating := 2.5 |};
    {| userId := 1; movieId := 5; rating := 3 |} ].

(** Three coefficients with a tie, nothing seen. *)
Definition xyz : nb_state string :=
  {| jacc_coeffs := [("A", "x", 0.9%float); ("A", "y", 0.5%float); ("A", "z", 0.9%float)];
     movies_seen := []; recommendations := []; stdout := [] |}.


(** The state after ranking when the user has seen the only candidate. *)
Definition nothing_left : nb_state Z :=
  {| jacc_coeffs := [(1907, 1566, 0.5%float)];
     movies_seen := [1566]; recommendations := []; stdout := [] |}.

Definition mulan_names : gmap Z string := {[ 1907 := "Mulan (1998)" ]}.

(** What [read_ratings] makes of [raw_ratings]. *)
Definition raw_ratings_read : ratings :=
  {| ratings_df :=
       [ {| userId := -2147483642; movieId := 5; rating := 4 |};
         {| userId := 8; movieId := 7; rating := 2.5 |};
         {| userId := 8; movieId := 5; rating := 3 |} ];
     max_movie_id := 7;
     all_user_ids := [-2147483642; 8];
     all_movie_ids := [5; 7] |}.

(** Four hundred users; the one at index 321 reviewed three movies, two of
    them with the top rating. *)
Definition many_users : list Z := seqZ 1 400.
Definition reviews_of_322 : adjacency :=
  [ (10, {[ "rating" := 4%float ]});
    (20, {[ "rating" := 5%float ]});
    (30, {[ "rating" := 5%float ]}) ].
Definition one_user_graph : gmap Z adjacency := {[ 322 := reviews_of_322 ]}.

(** A stand-in for the similarity call on a graph whose movie nodes are
    10, 20, 30 and 40: a pair with another node raises, as NetworkX does,
    at the first such node; then four good movies and three titles. *)
Definition toy_nodes : list Z := [10; 20; 30; 40].
Definition toy_jaccard (ebunch : list (Z * Z)) : outcome Z (list (Z * Z * float)) :=
  match List.find (λ n, negb (list_contains n toy_nodes))
                  (concat ((λ e, [e.1; e.2]) <$> ebunch)) with
  | Some n => Raise (NodeNotFound n)
  | None =>
      Ok ((λ e, (e.1, e.2, if e.2 =? 30 then 0.5%float else 0.25%float)) <$> ebunch)
  end.
Definition four_good_ids : list Z := [10; 20; 30; 40].
Definition three_names : gmap Z string :=
  {[ 10 := "Ten"; 20 := "Twenty"; 30 := "Thirty" ]}.
Definition fresh_state : nb_state Z :=
  {| jacc_coeffs := []; movies_seen := []; recommendations := []; stdout := [] |}.


End Examples.

(** ** Facts about the float order *)
Module FloatOrder.
Import PyFloat.

Lemma SFcompare_rank f g :
  sf_nan f = false -> sf_nan g = false ->
  SFcompare f g = Some (lex3 (sf_rank f) (sf_rank g)).
Proof.
  destruct f as [s| [|] | |[|] m e], g as [s'|[|]| |[|] m' e']; intros Hf Hg;
    try discriminate; try reflexivity; cbn [SFcompare sf_rank lex3].
  apply f_equal. change (-1 ?= -1) with Eq. cbv iota.
  rewrite Z.compare_opp, (Z.compare_antisym e e').
  destruct (e ?= e') eqn:He; cbn; try reflexivity.
Qed.

Lemma SFcompare_nan_l f g : sf_nan f = true -> SFcompare f g = None.
Proof. destruct f; intros; try discriminate. reflexivity. Qed.

Lemma SFcompare_nan_r f g : sf_nan g = true -> SFcompare f g = None.
Proof. destruct g; intros; try discriminate. destruct f; reflexivity. Qed.

Lemma SFcompare_cmp f g : SFcompare f g = sf_cmp f g.
Proof.
  unfold sf_cmp. destruct (sf_nan f) eqn:Hf; cbn [orb].
  - now apply SFcompare_nan_l.
  - destruct (sf_nan g) eqn:Hg.
    + now apply SFcompare_nan_r.
    + now apply SFcompare_rank.
Qed.

Lemma lex3_Lt x y : lex3 x y = Lt <-> lt3 x y.
Proof.
  destruct x as [[a1 a2] a3], y as [[b1 b2] b3]. unfold lex3, lt3.
  destruct (Z.compare_spec a1 b1), (Z.compare_spec a2 b2), (Z.compare_spec a3 b3);
    split; intros; try discriminate; try reflexivity; lia.
Qed.

Lemma lex3_Gt x y : lex3 x y = Gt <-> lt3 y x.
Proof.
  destruct x as [[a1 a2] a3], y as [[b1 b2] b3]. unfold lex3, lt3.
  destruct (Z.compare_spec a1 b1), (Z.compare_spec a2 b2), (Z.compare_spec a3 b3);
    split; intros; try discriminate; try reflexivity; lia.
Qed.

Lemma lex3_Eq x y : lex3 x y = Eq <-> x = y.
Proof.
  destruct x as [[a1 a2] a3], y as [[b1 b2] b3]. unfold lex3.
  destruct (Z.compare_spec a1 b1), (Z.compare_spec a2 b2), (Z.compare_spec a3 b3);
    split; intros H'; try discriminate; try reflexivity;
    try (injection H'; intros; lia); subst; reflexivity.
Qed.

(** Decides goals about [SFltb], [SFleb], [SFeqb]: every float is replaced
    by its NaN flag and its rank, every comparison by its three outcomes. *)
Ltac sf_order :=
  unfold SFltb, SFleb, SFeqb in *; rewrite ?SFcompare_cmp in *; unfold sf_cmp in *;
  repeat match goal with
         | f : spec_float |- _ =>
             let r := fresh "r" in let n := fresh "n" in
             let Hr := fresh in let Hn := fresh in
             remember (sf_rank f) as r eqn:Hr in *;
             remember (sf_nan f) as n eqn:Hn in *;
             clear Hr Hn; clear f; destruct r as [[? ?] ?]; destruct n
         end;
  cbn [orb] in *;
  repeat match goal with
         | H : context [lex3 ?a ?b] |- _ =>
             let E := fresh "E" in
             destruct (lex3 a b) eqn:E;
             [apply lex3_Eq in E | apply lex3_Lt in E | apply lex3_Gt in E]
         | |- context [lex3 ?a ?b] =>
             let E := fresh "E" in
             destruct (lex3 a b) eqn:E;
             [apply lex3_Eq in E | apply lex3_Lt in E | apply lex3_Gt in E]
         end;
  unfold lt3 in *;
  repeat match goal with H : (_, _, _) = (_, _, _) |- _ => injection H as ? ? ? end;
  try discriminate; try reflexivity; try lia.

Lemma SFltb_asym f g : SFltb f g = true -> SFltb g f = false.
Proof. intros H. sf_order. Qed.

Lemma SFltb_negtrans f g h :
  sf_nan g = false ->
  SFltb h g = false -> SFltb g f = false -> SFltb h f = false.
Proof. intros Hg H1 H2. sf_order. Qed.

Lemma SFltb_not_eqb f g h :
  SFltb f g = true -> SFeqb g h = true -> SFeqb f h = false.
Proof. intros H1 H2. sf_order. Qed.

Lemma SFltb_false_leb f g :
  sf_nan f = false -> sf_nan g = false -> SFltb f g = false -> SFleb g f = true.
Proof. intros Hf Hg H. sf_order. Qed.

Lemma SFleb_not_nan f g : SFleb f g = true -> sf_nan f = false /\ sf_nan g = false.
Proof. intros H. split; sf_order. Qed.

Lemma SFeqb_self f : SFeqb f f = negb (sf_nan f).
Proof. sf_order. Qed.

(** The same facts on primitive floats. *)

Lemma is_nan_spec x : PrimFloat.is_nan x = sf_nan (Prim2SF x).
Proof.
  unfold PrimFloat.is_nan. rewrite FloatAxioms.eqb_spec, SFeqb_self.
  now destruct (sf_nan _).
Qed.

Lemma in_unit_not_nan s : in_unit s = true -> PrimFloat.is_nan s = false.
Proof.
  unfold in_unit. rewrite andb_true_iff, is_nan_spec, !leb_spec.
  intros [H _]. now apply SFleb_not_nan in H.
Qed.

Lemma ltb_asym x y : PrimFloat.ltb x y = true -> PrimFloat.ltb y x = false.
Proof. rewrite !ltb_spec. apply SFltb_asym. Qed.

Lemma ltb_negtrans x y z :
  PrimFloat.is_nan y = false ->
  PrimFloat.ltb z y = false -> PrimFloat.ltb y x = false -> PrimFloat.ltb z x = false.
Proof. rewrite is_nan_spec, !ltb_spec. apply SFltb_negtrans. Qed.

Lemma ltb_not_eqb x y s :
  PrimFloat.ltb x y = true -> PrimFloat.eqb y s = true -> PrimFloat.eqb x s = false.
Proof. rewrite ltb_spec, !FloatAxioms.eqb_spec. apply SFltb_not_eqb. Qed.

Lemma ltb_false_leb x y :
  PrimFloat.is_nan x = false -> PrimFloat.is_nan y = false ->
  PrimFloat.ltb x y = false -> PrimFloat.leb y x = true.
Proof. rewrite !is_nan_spec, ltb_spec, leb_spec. apply SFltb_false_leb. Qed.

Lemma eqb_right_refl (x y : float) :
  PrimFloat.eqb x y = true -> PrimFloat.eqb y y = true.
Proof.
  rewrite !FloatAxioms.eqb_spec. generalize (Prim2SF x) (Prim2SF y).
  intros f g Hfg. sf_order.
Qed.

Lemma SFeqb_sym f g : SFeqb f g = SFeqb g f.
Proof. sf_order. Qed.

Lemma SFltb_total f g :
  sf_nan f = false -> sf_nan g = false ->
  SFltb f g = false -> SFltb g f = false -> SFeqb f g = true.
Proof. intros Hf Hg H1 H2. sf_order. Qed.

Lemma SFltb_eqb_l f g h : SFeqb f g = true -> SFltb f h = SFltb g h.
Proof. intros H1. sf_order. Qed.

Lemma eqb_sym x y : PrimFloat.eqb x y = PrimFloat.eqb y x.
Proof. rewrite !FloatAxioms.eqb_spec. apply SFeqb_sym. Qed.

Lemma eqb_refl x : PrimFloat.is_nan x = false -> PrimFloat.eqb x x = true.
Proof. unfold PrimFloat.is_nan. by intros ->%negb_false_iff. Qed.

Lemma ltb_total x y :
  PrimFloat.is_nan x = false -> PrimFloat.is_nan y = false ->
  PrimFloat.ltb x y = false -> PrimFloat.ltb y x = false -> PrimFloat.eqb x y = true.
Proof. rewrite !is_nan_spec, !ltb_spec, FloatAxioms.eqb_spec. apply SFltb_total. Qed.

Lemma ltb_eqb_l x y z : PrimFloat.eqb x y = true -> PrimFloat.ltb x z = PrimFloat.ltb y z.
Proof. rewrite !ltb_spec, FloatAxioms.eqb_spec. apply SFltb_eqb_l. Qed.

End FloatOrder.

(** ** Facts about [list.sort] *)
Module ListSort.
Import PyFloat Py FloatOrder.

Section facts.
Context {A : Type} (key : A -> float).

Lemma insert_sorted_perm x l : insert_sorted key x l ≡ₚ x :: l.
Proof.
  induction l as [|y l IH]; cbn; [done|].
  destruct (PrimFloat.ltb _ _); [|done].
  rewrite IH. apply Permutation_swap.
Qed.

Lemma stable_sort_cons x l :
  stable_sort key (x :: l) = insert_sorted key x (stable_sort key l).
Proof. reflexivity. Qed.

Lemma stable_sort_perm l : stable_sort key l ≡ₚ l.
Proof.
  induction l as [|x l IH]; [done|].
  by rewrite stable_sort_cons, insert_sorted_perm, IH.
Qed.

Lemma list_sort_perm reverse l : list_sort key reverse l ≡ₚ l.
Proof.
  destruct reverse; cbn; [|apply stable_sort_perm].
  by rewrite <-Permutation_rev, stable_sort_perm, <-Permutation_rev.
Qed.

Lemma filter_insert_sorted s x l :
  List.filter (same_key key s) (insert_sorted key x l) = List.filter (same_key key s) (x :: l).
Proof.
  induction l as [|y l IH]; [done|].
  cbn [insert_sorted]. destruct (PrimFloat.ltb (key y) (key x)) eqn:Hlt; [|done].
  cbn [List.filter] in *. rewrite IH.
  destruct (same_key key s x) eqn:Hx; [|done].
  unfold same_key in *. by rewrite (ltb_not_eqb _ _ _ Hlt Hx).
Qed.

Lemma filter_stable_sort s l :
  List.filter (same_key key s) (stable_sort key l) = List.filter (same_key key s) l.
Proof.
  induction l as [|x l IH]; [done|].
  rewrite stable_sort_cons, filter_insert_sorted. cbn. by rewrite IH.
Qed.

Lemma filter_list_sort s reverse l :
  List.filter (same_key key s) (list_sort key reverse l) = List.filter (same_key key s) l.
Proof.
  destruct reverse; cbn [list_sort]; [|apply filter_stable_sort].
  by rewrite filter_rev, filter_stable_sort, filter_rev, rev_involutive.
Qed.

Lemma insert_sorted_asc x l :
  PrimFloat.is_nan (key x) = false -> no_nan key l ->
  StronglySorted (asc key) l -> StronglySorted (asc key) (insert_sorted key x l).
Proof.
  intros Hx Hl Hs. induction Hs as [|y l Hs IH Hy]; cbn.
  - repeat constructor.
  - apply Forall_cons in Hl as [Hny Hl].
    destruct (PrimFloat.ltb (key y) (key x)) eqn:Hlt.
    + constructor; [by apply IH|].
      rewrite insert_sorted_perm. constructor; [|done].
      by apply ltb_asym.
    + constructor; [by constructor|].
      constructor; [done|].
      eapply Forall_impl; [exact Hy|]. cbn. intros z Hz.
      unfold asc in *. by apply ltb_negtrans with (key y).
Qed.

Lemma stable_sort_asc l : no_nan key l -> StronglySorted (asc key) (stable_sort key l).
Proof.
  induction 1 as [|x l Hx Hl IH]; [constructor|].
  rewrite stable_sort_cons. apply insert_sorted_asc; [done| |done].
  unfold no_nan. by rewrite stable_sort_perm.
Qed.

Lemma StronglySorted_rev (R : relation A) l :
  StronglySorted R l -> StronglySorted (flip R) (rev l).
Proof.
  induction 1 as [|x l Hs IH Hx]; cbn; [constructor|].
  apply StronglySorted_app; split_and!; [|done|repeat constructor].
  intros a b Ha Hb. apply list_elem_of_singleton in Hb as ->.
  rewrite Forall_forall in Hx. apply Hx.
  apply list_elem_of_In, in_rev. by apply list_elem_of_In.
Qed.

Lemma StronglySorted_filter (R : relation A) (p : A -> bool) l :
  StronglySorted R l -> StronglySorted R (List.filter p l).
Proof.
  induction 1 as [|x l Hs IH Hx]; cbn; [constructor|].
  destruct (p x); [|done]. constructor; [done|].
  rewrite Forall_forall in *. intros y Hy. apply Hx.
  apply list_elem_of_In in Hy. apply filter_In in Hy as [Hy _].
  by apply list_elem_of_In.
Qed.

Lemma StronglySorted_lookup (R : relation A) l (i j : nat) a b :
  StronglySorted R l -> (i < j)%nat ->
  l !! i = Some a -> l !! j = Some b -> R a b.
Proof.
  intros Hs. revert i j. induction Hs as [|x l Hs IH Hx]; intros i j Hij Hi Hj.
  - done.
  - destruct j as [|j]; [lia|]. cbn in Hj. destruct i as [|i].
    + cbn in Hi. injection Hi as ->. rewrite Forall_forall in Hx.
      apply Hx. by eapply list_elem_of_lookup_2.
    + cbn in Hi. apply (IH i j); [lia|done..].
Qed.

Lemma list_sort_desc l : no_nan key l -> StronglySorted (desc key) (list_sort key true l).
Proof.
  intros Hl. cbn [list_sort].
  assert (Hr : no_nan key (rev l)).
  { unfold no_nan. by rewrite <- Permutation_rev. }
  pose proof (StronglySorted_rev _ _ (stable_sort_asc _ Hr)) as Hs.
  assert (Hn : no_nan key (rev (stable_sort key (rev l)))).
  { unfold no_nan. by rewrite <- Permutation_rev, stable_sort_perm. }
  revert Hs Hn. generalize (rev (stable_sort key (rev l))). intros m Hs.
  induction Hs as [|x m Hs IH Hx]; intros Hn; [constructor|].
  apply Forall_cons in Hn as [Hnx Hn]. constructor; [by apply IH|].
  rewrite Forall_forall in *. intros y Hy. unfold desc.
  apply ltb_false_leb; [done|by apply Hn|]. by apply Hx.
Qed.

(** Splitting a filtered list at one of its elements. *)
Lemma filter_split (p : A -> bool) l m1 a m2 :
  List.filter p l = m1 ++ a :: m2 ->
  exists l1 l2, l = l1 ++ a :: l2 /\ List.filter p l1 = m1 /\ List.filter p l2 = m2.
Proof.
  revert m1. induction l as [|x l IH]; intros m1 Hf; cbn in Hf.
  - by destruct m1.
  - destruct (p x) eqn:Hpx.
    + destruct m1 as [|y m1]; cbn in Hf.
      * injection Hf as -> Hf. exists [], l. by rewrite Hf.
      * injection Hf as -> Hf. destruct (IH _ Hf) as (l1 & l2 & -> & H1 & H2).
        exists (y :: l1), l2. cbn. rewrite Hpx. by rewrite H1, H2.
    + destruct (IH _ Hf) as (l1 & l2 & -> & H1 & H2).
      exists (x :: l1), l2. cbn. rewrite Hpx. by rewrite H1, H2.
Qed.

Lemma filter_same_key_elem s x l :
  x ∈ List.filter (same_key key s) l -> x ∈ l /\ PrimFloat.eqb (key x) s = true.
Proof. intros Hx. apply list_elem_of_In, filter_In in Hx as [Hx Hs]. by rewrite list_elem_of_In. Qed.

(** Two ascending lists that agree on every class of [==] keys are equal. *)
Lemma sorted_stable_unique l1 l2 :
  no_nan key l1 -> no_nan key l2 ->
  StronglySorted (asc key) l1 -> StronglySorted (asc key) l2 ->
  (forall s, List.filter (same_key key s) l1 = List.filter (same_key key s) l2) ->
  l1 = l2.
Proof.
  revert l2. induction l1 as [|x l1 IH]; intros l2 Hn1 Hn2 Hs1 Hs2 Hcl.
  - destruct l2 as [|y l2]; [done|]. exfalso.
    apply Forall_cons in Hn2 as [Hy _]. specialize (Hcl (key y)). cbn in Hcl.
    unfold same_key at 1 in Hcl. by rewrite (eqb_refl _ Hy) in Hcl.
  - apply Forall_cons in Hn1 as [Hx Hn1]. apply StronglySorted_inv in Hs1 as [Hs1 Hx1].
    pose proof (Hcl (key x)) as Hcx. cbn in Hcx. unfold same_key at 1 in Hcx.
    rewrite (eqb_refl _ Hx) in Hcx. symmetry in Hcx.
    apply (filter_split _ _ []) in Hcx as (pre & post & -> & Hpre & Hpost).
    destruct pre as [|y pre].
    + cbn [app] in *. apply Forall_cons in Hn2 as [_ Hn2].
      apply StronglySorted_inv in Hs2 as [Hs2 _].
      f_equal. apply IH; [done..|]. intros s. specialize (Hcl s).
      cbn [List.filter app] in Hcl.
      destruct (same_key key s x); [injection Hcl as Hcl|]; exact Hcl.
    + exfalso. cbn [List.filter] in Hpre. destruct (same_key key (key x) y) eqn:Hyx; [done|].
      unfold same_key in Hyx.
      apply Forall_cons in Hn2 as [Hy Hn2].
      apply StronglySorted_inv in Hs2 as [_ Hyall].
      assert (Hxy : asc key y x).
      { rewrite Forall_forall in Hyall. apply Hyall. set_solver. }
      unfold asc in Hxy.
      (* some element of l1 has the key of y *)
      assert (Hyy : same_key key (key y) y = true) by (by apply eqb_refl).
      assert (Hxy' : same_key key (key y) x = false).
      { unfold same_key. by rewrite eqb_sym. }
      pose proof (Hcl (key y)) as Hcy. cbn [List.filter app] in Hcy.
      rewrite Hyy, Hxy' in Hcy.
      assert (Hz : y ∈ List.filter (same_key key (key y)) l1) by (rewrite Hcy; by left).
      apply filter_same_key_elem in Hz as [Hz _].
      rewrite Forall_forall in Hx1. specialize (Hx1 _ Hz). unfold asc in Hx1.
      rewrite (ltb_total _ _ Hy Hx Hx1 Hxy) in Hyx. done.
Qed.

(** [list.sort] is determined by its contract: a permutation of the list
    that is in order for [<] and keeps the elements of every key in their
    original order is the list the model computes. *)
Theorem list_sort_unique (reverse : bool) l l' :
  no_nan key l -> l' ≡ₚ l ->
  StronglySorted (if reverse then flip (asc key) else asc key) l' ->
  (forall s, List.filter (same_key key s) l' = List.filter (same_key key s) l) ->
  l' = list_sort key reverse l.
Proof.
  intros Hn Hp Hs Hcl.
  assert (Hn' : no_nan key l') by (unfold no_nan; by rewrite Hp).
  destruct reverse; cbn [list_sort].
  - rewrite <- (rev_involutive l'). f_equal.
    assert (Hr : no_nan key (rev l)) by (unfold no_nan; by rewrite <- Permutation_rev).
    apply sorted_stable_unique.
    + unfold no_nan. by rewrite <- Permutation_rev.
    + unfold no_nan. by rewrite stable_sort_perm.
    + exact (StronglySorted_rev _ _ Hs).
    + by apply stable_sort_asc.
    + intros s. by rewrite filter_stable_sort, !filter_rev, Hcl.
  - apply sorted_stable_unique; [done| |done| |].
    + unfold no_nan. by rewrite stable_sort_perm.
    + by apply stable_sort_asc.
    + intros s. by rewrite filter_stable_sort.
Qed.
End facts.
End ListSort.

(** ** Facts about strings, slices and indexing *)
Module Strings.
Import Py.


Lemma str_split_nonempty sep s : str_split sep s <> [].
Proof.
  destruct s as [|c s]; cbn [str_split]; [done|].
  destruct (Ascii.eqb c sep); [done|]. by destruct (str_split sep s).
Qed.

Lemma str_split_no_sep sep s : str_contains sep s = false -> str_split sep s = [s].
Proof.
  induction s as [|c s IH]; cbn [str_split str_contains]; [done|].
  intros [Hc Hs]%orb_false_iff. rewrite Hc, IH; done.
Qed.

Lemma str_split_app sep f s :
  str_contains sep f = false ->
  str_split sep (f +:+ String sep s) = f :: str_split sep s.
Proof.
  induction f as [|c f IH]; simpl.
  - intros _. by rewrite Ascii.eqb_refl.
  - intros [Hc Hf]%orb_false_iff. rewrite Hc. by rewrite (IH Hf).
Qed.

(** Splitting at the last separator. *)
Lemma str_split_snoc sep s g :
  str_contains sep g = false ->
  str_split sep (s +:+ String sep g) = str_split sep s ++ [g].
Proof.
  intros Hg. induction s as [|c s IH]; simpl.
  - by rewrite Ascii.eqb_refl, str_split_no_sep.
  - destruct (Ascii.eqb c sep); [by rewrite IH|].
    rewrite IH. pose proof (str_split_nonempty sep s).
    by destruct (str_split sep s).
Qed.

Lemma str_join_String sep c f fs :
  str_join sep (String c f :: fs) = String c (str_join sep (f :: fs)).
Proof. by destruct fs. Qed.

Lemma str_join_cons sep f g fs :
  str_join sep (f :: g :: fs) = f +:+ sep +:+ str_join sep (g :: fs).
Proof. done. Qed.

Lemma str_join_split s : str_join "," (str_split comma s) = s.
Proof.
  induction s as [|c s IH]; [done|]. cbn [str_split].
  pose proof (str_split_nonempty comma s) as Hne.
  destruct (str_split comma s) as [|f fs] eqn:E; [done|].
  destruct (Ascii.eqb_spec c comma) as [->|Hc].
  - rewrite str_join_cons, IH. done.
  - by rewrite str_join_String, IH.
Qed.

Lemma slice_middle {A} (x : A) (mid : list A) (y : A) :
  slice (x :: mid ++ [y]) (Some 1) (Some (-1)) = mid.
Proof.
  unfold slice, slice_bound. cbn [length]. rewrite length_app. cbn [length].
  replace (Z.of_nat (S (length mid + 1))) with (Z.of_nat (length mid) + 2) by lia.
  change (1 <? 0) with false. change (-1 <? 0) with true. cbv iota.
  rewrite Z.min_l, Z.max_r by lia. change (Z.to_nat 1) with 1%nat. cbn [skipn].
  replace (Z.to_nat (-1 + (Z.of_nat (length mid) + 2) - 1)) with (length mid) by lia.
  by rewrite drop_0, take_app_length.
Qed.

(** A list of at least two items is a first item, middle items and a last item. *)
Lemma first_middle_last {A} (l : list A) :
  (2 <= length l)%nat -> exists x mid y, l = x :: mid ++ [y].
Proof.
  destruct l as [|x l]; cbn; [lia|]. intros Hl.
  destruct (decide (l = [])) as [->|Hne]; [cbn in Hl; lia|].
  apply exists_last in Hne as (mid & y & ->). by exists x, mid, y.
Qed.

Lemma slice_middle_short {A} (l : list A) :
  (length l <= 2)%nat -> slice l (Some 1) (Some (-1)) = [].
Proof.
  intros Hl. unfold slice, slice_bound.
  change (1 <? 0) with false. change (-1 <? 0) with true. cbv iota.
  apply length_zero_iff_nil. rewrite length_take, length_drop. lia.
Qed.

Lemma slice_tail {A} (l : list A) : slice l (Some 1) None = drop 1 l.
Proof.
  unfold slice, slice_bound. change (1 <? 0) with false. cbv iota.
  destruct l as [|x l]; [done|]. cbn [length].
  rewrite Z.min_l by lia. change (Z.to_nat 1) with 1%nat. cbn [skipn].
  rewrite drop_0. apply take_ge. lia.
Qed.

Lemma list_getitem_0 {K A} (x : A) (l : list A) : list_getitem (K:=K) (x :: l) 0 = Ok x.
Proof.
  unfold list_getitem. cbn [length]. change (0 <? 0) with false. cbv iota.
  cbn [orb]. by rewrite (proj2 (Z.leb_gt _ _)) by lia.
Qed.

End Strings.

(** ** Facts about relative positions *)
Module Before.
Import Py ListSort.
Section facts.
Context {A : Type}.
Implicit Types (a b : A) (l : list A).

Lemma before_split a b l :
before a b l <-> exists l1 l2 l3, l = l1 ++ a :: l2 ++ b :: l3.
Proof.
split.
- intros (i & j & Hij & Hi & Hj).
  apply list_elem_of_split_length in Hi as (l1 & r & -> & ->).
  rewrite lookup_app_r in Hj by lia.
  destruct (j - length l1)%nat as [|k] eqn:Hk; [lia|]. cbn in Hj.
  apply list_elem_of_split_length in Hj as (l2 & l3 & -> & _).
  by exists l1, l2, l3.
- intros (l1 & l2 & l3 & ->). exists (length l1), (length l1 + S (length l2))%nat.
  split_and!; [lia|..].
  + by apply list_lookup_middle.
  + rewrite lookup_app_r by lia.
    replace (length l1 + S (length l2) - length l1)%nat with (S (length l2)) by lia.
    cbn. by apply list_lookup_middle.
Qed.

Lemma before_filter_2 (p : A -> bool) a b l :
before a b l -> p a = true -> p b = true -> before a b (List.filter p l).
Proof.
rewrite !before_split. intros (l1 & l2 & l3 & ->) Ha Hb.
exists (List.filter p l1), (List.filter p l2), (List.filter p l3).
rewrite List.filter_app. cbn. rewrite Ha, List.filter_app. cbn. by rewrite Hb.
Qed.

Lemma before_filter_1 (p : A -> bool) a b l :
before a b (List.filter p l) -> before a b l.
Proof.
rewrite !before_split. intros (m1 & m2 & m3 & Hf).
apply filter_split in Hf as (l1 & r & -> & _ & Hr).
apply filter_split in Hr as (l2 & l3 & -> & _ & _).
by exists l1, l2, l3.
Qed.
End facts.

Lemma before_fmap {A B} (f : A -> B) (a b : A) (l : list A) :
  before a b l -> before (f a) (f b) (f <$> l).
Proof.
  intros (i & j & Hij & Hi & Hj). exists i, j.
  by rewrite !list_lookup_fmap, Hi, Hj.
Qed.

End Before.

(** ** The ratings table *)
Module Ratings.
Import Py Notebook Examples.

Lemma elem_of_unique `{EqDecision A} (x : A) l : x ∈ unique l <-> x ∈ l.
Proof.
  induction l as [|y l IH]; [done|]. cbn [unique].
  rewrite !elem_of_cons, list_elem_of_In, filter_In, <- list_elem_of_In, IH.
  rewrite negb_true_iff, bool_decide_eq_false.
  destruct (decide (x = y)); tauto.
Qed.

Lemma foldl_max_ge (x : Z) l : x <= foldl Z.max x l.
Proof.
  revert x. induction l as [|y l IH]; intros x; cbn; [lia|].
  specialize (IH (Z.max x y)). lia.
Qed.

Lemma foldl_max_bound (x : Z) l y : y ∈ l -> y <= foldl Z.max x l.
Proof.
  revert x. induction l as [|z l IH]; intros x Hy; cbn.
  - by apply not_elem_of_nil in Hy.
  - apply elem_of_cons in Hy as [->|Hy]; [|by apply IH].
    pose proof (foldl_max_ge (Z.max x z) l). lia.
Qed.

Lemma foldl_max_elem (x : Z) l : foldl Z.max x l ∈ x :: l.
Proof.
  revert x. induction l as [|y l IH]; intros x; cbn; [by left|].
  specialize (IH (Z.max x y)). apply elem_of_cons in IH as [IH|IH].
  - rewrite IH. destruct (Z.max_spec x y) as [[_ ->]|[_ ->]].
    + right. by left.
    + by left.
  - right. by right.
Qed.

Lemma series_max_spec col mx :
  series_max col = Ok mx -> mx ∈ col /\ forall y, y ∈ col -> y <= mx.
Proof.
  destruct col as [|x col]; [done|]. cbn. intros [= <-]. split.
  - apply foldl_max_elem.
  - intros y [->|Hy]%elem_of_cons; [apply foldl_max_ge|by apply foldl_max_bound].
Qed.

Lemma wrap32_small z : 0 <= z + 2 ^ 31 < 2 ^ 32 -> wrap32 z = z.
Proof. intros Hz. unfold wrap32. rewrite Z.mod_small by done. lia. Qed.

Lemma wrap32_overflow z : 2 ^ 31 <= z < 2 ^ 32 + 2 ^ 31 -> wrap32 z = z - 2 ^ 32.
Proof.
  intros Hz. unfold wrap32.
  replace (z + 2 ^ 31) with ((z - 2 ^ 31) + 1 * 2 ^ 32) by lia.
  rewrite Z.mod_add by lia. rewrite Z.mod_small by lia. lia.
Qed.

(** An offset user id is either above every movie id or negative. *)
Lemma offset_user_id_range u mx :
  0 < u <= int32_max -> 0 < mx <= int32_max ->
  mx < wrap32 (u + mx) \/ wrap32 (u + mx) < 0.
Proof.
  unfold int32_max. intros Hu Hm.
  destruct (Z_lt_le_dec (u + mx) (2 ^ 31)) as [Hlt|Hge].
  - left. rewrite wrap32_small by lia. lia.
  - right. rewrite wrap32_overflow by lia. lia.
Qed.

Lemma movieId_add_to_userId n (rows : list rating_row) :
  movieId <$> (add_to_userId n <$> rows) = movieId <$> rows.
Proof. rewrite <- list_fmap_compose. by apply list_fmap_ext. Qed.

Lemma read_ratings_run r0 rows' :
  let rows := r0 :: rows' in
  exists mx, series_max (movieId <$> rows) = Ok mx /\
    read_ratings rows =
      Ok {| ratings_df := add_to_userId mx <$> rows;
            max_movie_id := mx;
            all_user_ids := unique (userId <$> (add_to_userId mx <$> rows));
            all_movie_ids := unique (movieId <$> (add_to_userId mx <$> rows)) |}.
Proof. cbn. eexists. split; reflexivity. Qed.

(** C7: when every raw user id and movie id of the ratings table is a
    positive [int32], the cell succeeds on a non-empty table, and then:
    [max_movie_id] is the largest movie id of the rows; every row is kept
    with [max_movie_id] added to its user id (with the column's 32-bit
    wrap-around); [all_user_ids] holds exactly the offset user ids of the
    rows and [all_movie_ids] exactly their movie ids; and the two are
    disjoint: no offset user id of a row is the movie id of a row, no value
    is both in [all_user_ids] and in [all_movie_ids], since an offset user
    id is above [max_movie_id] or negative while a movie id lies in
    [1, max_movie_id].  The cell stops with an exception only on the empty
    table. *)
Theorem offset_user_ids_disjoint_from_movie_ids rows :
  Forall (λ r, 0 < userId r <= int32_max /\ 0 < movieId r <= int32_max) rows ->
  match read_ratings rows with
  | Ok r =>
      rows <> [] /\
      ratings_df r = add_to_userId (max_movie_id r) <$> rows /\
      (exists row, row ∈ rows /\ movieId row = max_movie_id r) /\
      (forall row, row ∈ rows -> movieId row <= max_movie_id r) /\
      (forall x, x ∈ all_user_ids r <->
         exists row, row ∈ rows /\ x = wrap32 (userId row + max_movie_id r)) /\
      (forall y, y ∈ all_movie_ids r <-> exists row, row ∈ rows /\ y = movieId row) /\
      (forall row1 row2, row1 ∈ rows -> row2 ∈ rows ->
         wrap32 (userId row1 + max_movie_id r) <> movieId row2) /\
      (forall y, y ∈ all_movie_ids r -> 0 < y <= max_movie_id r) /\
      (forall x, x ∈ all_user_ids r -> x ∉ all_movie_ids r)
  | Raise _ => rows = []
  end.
Proof.
  intros Hrows. destruct rows as [|r0 rows']; [done|].
  destruct (read_ratings_run r0 rows') as (mx & Hmax & ->).
  set (rows := r0 :: rows') in *.
  cbn [all_movie_ids all_user_ids max_movie_id ratings_df].
  apply series_max_spec in Hmax as [Hin Hle].
  rewrite Forall_forall in Hrows.
  assert (Hmx : 0 < mx <= int32_max).
  { apply list_elem_of_fmap in Hin as (r & -> & Hr). by apply Hrows. }
  assert (Huser : forall x, x ∈ unique (userId <$> (add_to_userId mx <$> rows)) <->
                    exists row, row ∈ rows /\ x = wrap32 (userId row + mx)).
  { intros x. rewrite elem_of_unique, <- list_fmap_compose, list_elem_of_fmap.
    split; intros (row & Hx & Hr); exists row; split; done. }
  assert (Hmovie : forall y, y ∈ unique (movieId <$> (add_to_userId mx <$> rows)) <->
                     exists row, row ∈ rows /\ y = movieId row).
  { intros y. rewrite elem_of_unique, movieId_add_to_userId, list_elem_of_fmap.
    split; intros (row & Hy & Hr); exists row; split; done. }
  assert (Hdisj : forall row1 row2, row1 ∈ rows -> row2 ∈ rows ->
                    wrap32 (userId row1 + mx) <> movieId row2).
  { intros row1 row2 H1 H2.
    destruct (Hrows _ H1) as [Hu _]. destruct (Hrows _ H2) as [_ Hm].
    assert (movieId row2 <= mx) by (apply Hle, list_elem_of_fmap; by exists row2).
    destruct (offset_user_id_range (userId row1) mx Hu Hmx); lia. }
  split; [by subst rows|]. split; [done|].
  split. { apply list_elem_of_fmap in Hin as (r & Hr1 & Hr2). by exists r. }
  split. { intros row Hr. apply Hle, list_elem_of_fmap. by exists row. }
  split; [exact Huser|]. split; [exact Hmovie|]. split; [exact Hdisj|].
  split.
  - intros y (row & Hr & ->)%Hmovie. split; [by apply Hrows|].
    apply Hle, list_elem_of_fmap. by exists row.
  - intros x (row1 & H1 & ->)%Huser (row2 & H2 & Heq)%Hmovie.
    by apply (Hdisj row1 row2).
Qed.

(** The raw table with user id 2147483647: the sum wraps to a negative id. *)
Lemma offset_user_ids_disjoint_witness :
  Forall (λ r, 0 < userId r <= int32_max /\ 0 < movieId r <= int32_max)
    raw_ratings /\
  match read_ratings raw_ratings with
  | Ok r =>
      raw_ratings <> [] /\
      ratings_df r = add_to_userId (max_movie_id r) <$> raw_ratings /\
      (exists row, row ∈ raw_ratings /\ movieId row = max_movie_id r) /\
      (forall row, row ∈ raw_ratings -> movieId row <= max_movie_id r) /\
      (forall x, x ∈ all_user_ids r <->
         exists row, row ∈ raw_ratings /\ x = wrap32 (userId row + max_movie_id r)) /\
      (forall y, y ∈ all_movie_ids r <->
         exists row, row ∈ raw_ratings /\ y = movieId row) /\
      (forall row1 row2, row1 ∈ raw_ratings -> row2 ∈ raw_ratings ->
         wrap32 (userId row1 + max_movie_id r) <> movieId row2) /\
      (forall y, y ∈ all_movie_ids r -> 0 < y <= max_movie_id r) /\
      (forall x, x ∈ all_user_ids r -> x ∉ all_movie_ids r)
  | Raise _ => raw_ratings = []
  end.
Proof.
  assert (Hraw : Forall (λ r, 0 < userId r <= int32_max /\ 0 < movieId r <= int32_max)
                   raw_ratings).
  { repeat constructor; vm_compute; congruence. }
  exact (conj Hraw (offset_user_ids_disjoint_from_movie_ids raw_ratings Hraw)).
Defined.

Example read_raw_ratings :
  read_ratings raw_ratings =
    Ok {| ratings_df :=
            [ {| userId := -2147483642; movieId := 5; rating := 4 |};
              {| userId := 8; movieId := 7; rating := 2.5 |};
              {| userId := 8; movieId := 5; rating := 3 |} ];
          max_movie_id := 7;
          all_user_ids := [-2147483642; 8];
          all_movie_ids := [5; 7] |}.
Proof. vm_compute. reflexivity. Qed.

Example read_no_ratings : read_ratings [] = Raise (KeyError 0).
Proof. reflexivity. Qed.

End Ratings.

(** ** The node pairs *)
Module Ebunch.
Import Py Notebook Strings Examples.

Lemma elem_of_ebunch movie_id good_ids (a n : Z) :
  (a, n) ∈ ebunch movie_id good_ids <->
  a = movie_id /\ n ∈ drop 1 good_ids /\ n <> movie_id.
Proof.
  unfold ebunch. rewrite slice_tail, list_elem_of_fmap. split.
  - intros (k & [= -> ->] & Hk).
    apply list_elem_of_In, filter_In in Hk as [Hk Hne].
    apply list_elem_of_In in Hk. apply negb_true_iff, bool_decide_eq_false in Hne.
    done.
  - intros (-> & Hn & Hne). exists n. split; [done|].
    apply list_elem_of_In, filter_In. split; [by apply list_elem_of_In|].
    by apply negb_true_iff, bool_decide_eq_false.
Qed.

(** The first good movie is never paired with the anchor. *)
Lemma ebunch_omits_first movie_id first rest :
  first ∉ rest -> (movie_id, first) ∉ ebunch movie_id (first :: rest).
Proof. intros Hf. rewrite elem_of_ebunch. cbn. tauto. Qed.

Lemma ebunch_covers_rest movie_id first rest n :
  n ∈ rest -> n <> movie_id -> (movie_id, n) ∈ ebunch movie_id (first :: rest).
Proof. intros Hn Hne. by apply elem_of_ebunch. Qed.

(** C6: the pairs submitted for an anchor movie should contain every other
    good movie id.  With [good_movie_ids = [10; 20; 30]] and anchor 20 the
    list is [[(20, 30)]]: movie 10, the first entry of [good_movie_ids], is
    a good movie other than the anchor and has no pair, because the
    comprehension iterates over [good_movie_ids[1:]]. *)
Theorem ebunch_misses_good_movie :
  good_movie_ids three_good_reviews = [10; 20; 30] /\
  ebunch 20 (good_movie_ids three_good_reviews) = [(20, 30)] /\
  10 ∈ good_movie_ids three_good_reviews /\ 10 <> 20 /\
  (20, 10) ∉ ebunch 20 (good_movie_ids three_good_reviews).
Proof.
  assert (Hg : good_movie_ids three_good_reviews = [10; 20; 30]) by (vm_compute; reflexivity).
  rewrite Hg. split_and!; [done| by vm_compute | by left | done |].
  apply ebunch_omits_first. intros [[=]|[[=]|[]%not_elem_of_nil]%elem_of_cons]%elem_of_cons.
Qed.

End Ebunch.

(** ** The id-to-title dictionary *)
Module NameMap.
Import Py Notebook Strings Examples.

Section facts.
Variable int_of_str : string -> option Z.
Implicit Types (m : gmap Z string) (line : string) (lines : list string).

(** The body of the loop, once [items[0]] is known to exist. *)
Lemma name_map_line_run m line :
exists item0 rest, str_split comma line = item0 :: rest /\
  name_map_line int_of_str m line =
    match int_of_str item0 with
    | None => Ok m
    | Some mid =>
        Ok (<[mid := str_join "," (slice (item0 :: rest) (Some 1) (Some (-1)))]> m)
    end.
Proof.
unfold name_map_line. pose proof (str_split_nonempty comma line) as Hne.
destruct (str_split comma line) as [|item0 rest]; [done|].
exists item0, rest. by rewrite list_getitem_0.
Qed.

(** No line makes the loop body raise. *)
Lemma name_map_line_total m line : exists m', name_map_line int_of_str m line = Ok m'.
Proof.
destruct (name_map_line_run m line) as (item0 & rest & _ & ->).
destruct (int_of_str item0); eauto.
Qed.

Lemma name_map_loop_total m lines : exists m', name_map_loop int_of_str m lines = Ok m'.
Proof.
revert m. induction lines as [|line lines IH]; intros m; cbn; [eauto|].
destruct (name_map_line_total m line) as [m' ->]. apply IH.
Qed.

Lemma name_map_loop_app m lines1 lines2 :
name_map_loop int_of_str m (lines1 ++ lines2) =
  match name_map_loop int_of_str m lines1 with
  | Ok m' => name_map_loop int_of_str m' lines2
  | Raise e => Raise e
  end.
Proof.
revert m. induction lines1 as [|line lines1 IH]; intros m; cbn; [done|].
destruct (name_map_line int_of_str m line); [apply IH|done].
Qed.

(** C9: a line whose leading comma-separated field [int] refuses is skipped
  silently: the iteration ends normally with the dictionary unchanged
  (no entry added, no exception), the loop goes on with the next line,
  and the dictionary built from the whole file is the one built from the
  file without that line. *)
Theorem unparseable_line_skipped m line item0 rest lines1 lines2 :
str_split comma line = item0 :: rest ->
int_of_str item0 = None ->
name_map_line int_of_str m line = Ok m /\
name_map_loop int_of_str m (line :: lines2) = name_map_loop int_of_str m lines2 /\
movie_id_name_map int_of_str (lines1 ++ line :: lines2) =
  movie_id_name_map int_of_str (lines1 ++ lines2).
Proof.
intros Hsplit Hint.
assert (Hline : forall m', name_map_line int_of_str m' line = Ok m').
{ intros m'. destruct (name_map_line_run m' line) as (i0 & r & Hs & ->).
  rewrite Hsplit in Hs. injection Hs as <- <-. by rewrite Hint. }
split_and!; [done| |].
- cbn. by rewrite Hline.
- unfold movie_id_name_map. rewrite !name_map_loop_app.
  destruct (name_map_loop int_of_str ∅ lines1) as [m1|e]; [|done].
  cbn. by rewrite Hline.
Qed.

Lemma name_map_line_fields m line item0 mids last mid :
str_split comma line = item0 :: mids ++ [last] ->
int_of_str item0 = Some mid ->
name_map_line int_of_str m line = Ok (<[mid := str_join "," mids]> m).
Proof.
intros Hsplit Hint.
destruct (name_map_line_run m line) as (i0 & r & Hs & ->).
rewrite Hsplit in Hs. injection Hs as <- <-.
by rewrite Hint, slice_middle.
Qed.

(** A line [id,title,genres] whose id and genres hold no comma splits into
  the id, the pieces of the title, and the genres. *)
Lemma split_id_title_genres item0 title genres :
str_contains comma item0 = false -> str_contains comma genres = false ->
str_split comma (item0 +:+ "," +:+ title +:+ "," +:+ genres) =
  item0 :: str_split comma title ++ [genres].
Proof.
intros H0 Hg.
assert (Hc : forall s, "," +:+ s = String comma s) by done.
rewrite !Hc, str_split_app by done. by rewrite str_split_snoc.
Qed.

(** C10: for a line whose comma-split fields are [item0], [mids], [last]
  (so at least two fields) and whose [item0] parses to [mid], the
  iteration stores under [mid] exactly the middle fields joined with
  commas, the last field being dropped; with two fields the label is the
  empty string; whatever earlier lines stored under [mid] is overwritten,
  so the dictionary of a file ending with this line maps [mid] to this
  label; and when the line reads [id,title,genres] the label is the
  title character for character, quotes and inner commas included. *)
Theorem name_map_stores_middle_fields m line item0 mids last mid :
str_split comma line = item0 :: mids ++ [last] ->
int_of_str item0 = Some mid ->
name_map_line int_of_str m line = Ok (<[mid := str_join "," mids]> m) /\
(mids = [] -> name_map_line int_of_str m line = Ok (<[mid := ""]> m)) /\
(forall lines, exists m', movie_id_name_map int_of_str (lines ++ [line]) = Ok m' /\
                          m' !! mid = Some (str_join "," mids)) /\
(forall title genres,
   str_contains comma item0 = false -> str_contains comma genres = false ->
   line = item0 +:+ "," +:+ title +:+ "," +:+ genres ->
   str_join "," mids = title).
Proof.
intros Hsplit Hint.
pose proof (fun m' => name_map_line_fields m' line item0 mids last mid Hsplit Hint) as Hline.
split_and!.
- apply Hline.
- intros ->. apply Hline.
- intros lines. destruct (name_map_loop_total ∅ lines) as [m0 Hm0].
  exists (<[mid := str_join "," mids]> m0). split.
  + unfold movie_id_name_map. rewrite name_map_loop_app, Hm0. cbn. by rewrite Hline.
  + apply lookup_insert_eq.
- intros title genres H0 Hg ->.
  rewrite split_id_title_genres in Hsplit by done.
  injection Hsplit as Hsplit. apply app_inj_tail in Hsplit as [<- _].
  apply str_join_split.
Qed.
End facts.

(** The header line of [movies.csv] under [Py.int]. *)
Lemma unparseable_line_skipped_witness :
  str_split comma header_line = ["movieId"; "title"; "genres" +:+ LF] /\
  int "movieId" = None /\
  name_map_line int mulan_names header_line = Ok mulan_names /\
  name_map_loop int mulan_names [header_line; mulan_line] =
    name_map_loop int mulan_names [mulan_line] /\
  movie_id_name_map int ([] ++ header_line :: [mulan_line]) =
    movie_id_name_map int ([] ++ [mulan_line]).
Proof.
  assert (H1 : str_split comma header_line = ["movieId"; "title"; "genres" +:+ LF])
    by (vm_compute; reflexivity).
  assert (H2 : int "movieId" = None) by (vm_compute; reflexivity).
  exact (conj H1 (conj H2
    (unparseable_line_skipped int mulan_names header_line _ _ [] [mulan_line] H1 H2))).
Defined.

(** The row of movie 4016, whose title is quoted and holds a comma. *)
Lemma name_map_stores_middle_fields_witness :
  str_split comma groove_line =
    "4016" :: [dquote +:+ "Emperor's New Groove"; " The (2000)" +:+ dquote]
           ++ ["Adventure|Animation|Children|Comedy|Fantasy" +:+ LF] /\
  int "4016" = Some 4016 /\
  name_map_line int mulan_names groove_line =
    Ok (<[4016 := str_join "," [dquote +:+ "Emperor's New Groove"; " The (2000)" +:+ dquote]]>
          mulan_names).
Proof.
  assert (H1 : str_split comma groove_line =
    "4016" :: [dquote +:+ "Emperor's New Groove"; " The (2000)" +:+ dquote]
           ++ ["Adventure|Animation|Children|Comedy|Fantasy" +:+ LF])
    by (vm_compute; reflexivity).
  assert (H2 : int "4016" = Some 4016) by (vm_compute; reflexivity).
  exact (conj H1 (conj H2
    (proj1 (name_map_stores_middle_fields int mulan_names groove_line _ _ _ _ H1 H2)))).
Defined.

Example groove_label :
  str_join "," [dquote +:+ "Emperor's New Groove"; " The (2000)" +:+ dquote] = groove_title.
Proof. vm_compute. reflexivity. Qed.

(** A file with the header, a row given twice with different titles, and a
    row without title: the later row wins, the short row maps to [""]. *)
Example movie_id_name_map_sample :
  movie_id_name_map int
    [header_line; "1907,Old title,Drama" +:+ LF; mulan_line; "7,Comedy" +:+ LF] =
  Ok (<[7 := ""]> (<[1907 := "Mulan (1998)"]> ∅)).
Proof. vm_compute. reflexivity. Qed.

End NameMap.

(** ** Ranking and recommendation *)
Module Recommender.
Import PyFloat Py Notebook FloatOrder ListSort Strings Before Examples.

Section facts.
Context `{Countable node} `{!Pretty node}.
Implicit Types (st : nb_state node) (S seen : list node) (t : node * node * float).

Lemma list_contains_spec (x : node) l : list_contains x l = true <-> x ∈ l.
Proof.
induction l as [|y l IH]; cbn.
- split; [done|]. by intros ?%not_elem_of_nil.
- rewrite elem_of_cons. destruct (decide (y = x)) as [->|Hne].
  + split; [by left|done].
  + rewrite IH. split; [by right|]. by intros [->|].
Qed.

(** The three assignments of the ranking step, run. *)
Lemma ranking_step_run S st :
ranking_step S st =
  (Ok tt, {| jacc_coeffs := list_sort coeff true (jacc_coeffs st);
             movies_seen := S;
             recommendations := unseen_mids (list_sort coeff true (jacc_coeffs st)) S;
             stdout := stdout st |}).
Proof. reflexivity. Qed.

Ltac run_ranking_step :=
rewrite ranking_step_run in *;
cbn [snd fst jacc_coeffs movies_seen recommendations stdout] in *.


Lemma elem_of_unseen_tuples t coeffs seen :
t ∈ unseen_tuples coeffs seen <-> t ∈ coeffs /\ t.1.2 ∉ seen.
Proof.
unfold unseen_tuples. rewrite !list_elem_of_In, filter_In, <- !list_elem_of_In.
destruct t as [[u mid] p]. cbn. rewrite negb_true_iff, <- not_true_iff_false.
by rewrite list_contains_spec.
Qed.

Lemma elem_of_unseen_mids (mid : node) coeffs seen :
mid ∈ unseen_mids coeffs seen <->
(exists u p, (u, mid, p) ∈ coeffs) /\ mid ∉ seen.
Proof.
unfold unseen_mids. rewrite list_elem_of_fmap. split.
- intros ([[u m] p] & -> & Ht). apply elem_of_unseen_tuples in Ht as [Ht Hs].
  split; [by exists u, p|done].
- intros [(u & p & Ht) Hs]. exists (u, mid, p). split; [done|].
  by apply elem_of_unseen_tuples.
Qed.

Lemma unseen_mids_lookup coeffs seen (i : nat) t :
unseen_tuples coeffs seen !! i = Some t ->
unseen_mids coeffs seen !! i = Some t.1.2.
Proof.
intros Ht. unfold unseen_mids. rewrite list_lookup_fmap, Ht.
by destruct t as [[u m] p].
Qed.

Lemma unseen_tuples_comm (p : node * node * float -> bool) coeffs seen :
List.filter p (unseen_tuples coeffs seen) = unseen_tuples (List.filter p coeffs) seen.
Proof.
unfold unseen_tuples. induction coeffs as [|t l IH]; [done|]. cbn.
destruct t as [[u m] q]. destruct (negb _) eqn:E1, (p (u, m, q)) eqn:E2; cbn;
  rewrite ?E1, ?E2, ?IH; done.
Qed.

Lemma in_unit_no_nan (l : list (node * node * float)) :
Forall (λ t, in_unit (coeff t) = true) l -> no_nan coeff l.
Proof.
intros Hl. eapply Forall_impl; [exact Hl|]. intros t. apply in_unit_not_nan.
Qed.

(** C1: whatever the similarity list held in [jacc_coeffs] and whatever
  the neighbours [S] of the user, after the ranking step [movies_seen]
  is [S] and no id in [recommendations] is an element of [S]. *)
Theorem recommendations_exclude_seen S st :
movies_seen (ranking_step S st).2 = S /\
Forall (λ mid, mid ∉ S) (recommendations (ranking_step S st).2).
Proof.
run_ranking_step. split; [done|].
apply Forall_forall. intros mid Hm. by apply elem_of_unseen_mids in Hm as [_ Hm].
Qed.

(** Every unseen candidate is recommended, so the list is empty only when
  nothing is left. *)
Lemma recommendations_complete S st (mid : node) :
mid ∈ recommendations (ranking_step S st).2 <->
(exists u p, (u, mid, p) ∈ jacc_coeffs st) /\ mid ∉ S.
Proof.
run_ranking_step. rewrite elem_of_unseen_mids.
assert (Hp : forall u p, (u, mid, p) ∈ list_sort coeff true (jacc_coeffs st) <->
                         (u, mid, p) ∈ jacc_coeffs st).
{ intros u p. by rewrite (list_sort_perm coeff true (jacc_coeffs st)). }
split; intros [(u & p & Ht) Hs]; (split; [|done]); exists u, p; by apply Hp.
Qed.

(** C2: for a similarity list with scores in [0, 1] holding two different
  scores, take two positions [i < j] of the output.  The tuples the
  comprehension let through at these positions are [ti] and [tj], the
  recommended ids at these positions are their candidates, and the score
  of [tj] is [<=] the score of [ti]. *)
Theorem recommendations_descending S st (i j : nat) ti tj :
Forall (λ t, in_unit (coeff t) = true) (jacc_coeffs st) ->
(exists t1 t2, t1 ∈ jacc_coeffs st /\ t2 ∈ jacc_coeffs st /\
               PrimFloat.eqb (coeff t1) (coeff t2) = false) ->
(i < j)%nat ->
unseen_tuples (jacc_coeffs (ranking_step S st).2) S !! i = Some ti ->
unseen_tuples (jacc_coeffs (ranking_step S st).2) S !! j = Some tj ->
recommendations (ranking_step S st).2 !! i = Some ti.1.2 /\
recommendations (ranking_step S st).2 !! j = Some tj.1.2 /\
PrimFloat.leb (coeff tj) (coeff ti) = true.
Proof.
run_ranking_step. intros Hunit _ Hij Hi Hj.
split_and!; [by apply unseen_mids_lookup..|].
apply in_unit_no_nan, (list_sort_desc coeff) in Hunit.
apply (StronglySorted_filter _ (λ '(_, mid, _), negb (list_contains mid S))) in Hunit.
exact (StronglySorted_lookup _ _ _ _ _ _ Hunit Hij Hi Hj).
Qed.

(** Within one score the ranking keeps the order of the input. *)
Lemma ranking_stable_classes S st s :
List.filter (same_key coeff s) (unseen_tuples (jacc_coeffs (ranking_step S st).2) S) =
List.filter (same_key coeff s) (unseen_tuples (jacc_coeffs st) S).
Proof.
run_ranking_step. by rewrite !unseen_tuples_comm, filter_list_sort.
Qed.

Lemma ranking_stable_pairs S st t1 t2 :
before t1 t2 (jacc_coeffs st) ->
t1.1.2 ∉ S -> t2.1.2 ∉ S ->
PrimFloat.eqb (coeff t1) (coeff t2) = true ->
before t1 t2 (unseen_tuples (jacc_coeffs (ranking_step S st).2) S) /\
before t1.1.2 t2.1.2 (recommendations (ranking_step S st).2).
Proof.
intros Hb H1 H2 Heq.
assert (Hu : before t1 t2 (unseen_tuples (jacc_coeffs (ranking_step S st).2) S)).
{ apply (before_filter_1 (same_key coeff (coeff t2))).
  rewrite ranking_stable_classes.
  apply before_filter_2; [|done|by apply eqb_right_refl in Heq].
  apply before_filter_2; [done|..].
  - destruct t1 as [[u m] p]. cbn in *. apply negb_true_iff, not_true_iff_false.
    by rewrite list_contains_spec.
  - destruct t2 as [[u m] p]. cbn in *. apply negb_true_iff, not_true_iff_false.
    by rewrite list_contains_spec. }
split; [done|]. run_ranking_step.
apply (before_fmap (λ '(_, mid, _), mid)) in Hu.
by destruct t1 as [[? ?] ?], t2 as [[? ?] ?].
Qed.

Lemma top_match_step_nil user names st :
recommendations st = [] -> top_match_step user names st = (Ok tt, st).
Proof. intros Hr. unfold top_match_step, mbind, stmt_bind, get. by rewrite Hr. Qed.

Lemma top_match_step_cons user names st mid rest :
recommendations st = mid :: rest ->
top_match_step user names st =
  match names !! mid with
  | Some name => print (might_like user name mid) st
  | None => (Raise (KeyError mid), st)
  end.
Proof.
intros Hr. unfold top_match_step, mbind, stmt_bind, get, lift. rewrite Hr.
rewrite bool_decide_eq_true_2 by (cbn; lia).
rewrite list_getitem_0. unfold dict_getitem. by destruct (names !! mid).
Qed.

(** C4 (amended): when [recommendations] is not empty its first element is
  the one reported: its title is looked up and one line naming the user,
  the title and the id is printed (a title missing from the dictionary
  is the [KeyError] of the lookup).  When [recommendations] is empty the
  step ends normally and changes nothing: nothing is printed and no
  condition is signalled. *)
Theorem top_match_reports_first_or_stays_silent user names st :
match recommendations st with
| [] => top_match_step user names st = (Ok tt, st)
| mid :: _ =>
    match names !! mid with
    | Some name =>
        top_match_step user names st = print (might_like user name mid) st /\
        stdout (top_match_step user names st).2 =
          stdout st ++ [might_like user name mid]
    | None => top_match_step user names st = (Raise (KeyError mid), st)
    end
end.
Proof.
destruct (recommendations st) as [|mid rest] eqn:Hr.
- by apply top_match_step_nil.
- rewrite (top_match_step_cons _ _ _ _ _ Hr). by destruct (names !! mid).
Qed.


Lemma dict_getitem_raises_iff_absent (names : gmap node string) (k : node) :
(forall v, dict_getitem names k = Ok v <-> names !! k = Some v) /\
(forall e, dict_getitem names k = Raise e <-> names !! k = None /\ e = KeyError k).
Proof.
unfold dict_getitem. destruct (names !! k) as [v|]; split.
- intros v'. split; intros [= ->]; done.
- intros e. split; [done|]. by intros [[=] _].
- intros v. split; done.
- intros e. split; [by intros [= <-]|]. by intros [_ ->].
Qed.

(** The lookup in the printing step is not guarded: a missing title
  stops the cell with [KeyError] before anything is printed. *)
Lemma top_match_step_key_error user names st mid rest :
recommendations st = mid :: rest -> names !! mid = None ->
top_match_step user names st = (Raise (KeyError mid), st).
Proof. intros Hr Hn. by rewrite (top_match_step_cons _ _ _ _ _ Hr), Hn. Qed.
End facts.

(** The three tied coefficients, nothing seen;
    positions 0 and 2 of the output. *)
Lemma recommendations_descending_witness :
  Forall (λ t, in_unit (coeff t) = true) (jacc_coeffs xyz) /\
  unseen_tuples (jacc_coeffs (ranking_step [] xyz).2) [] !! 0%nat
    = Some ("A", "x", 0.9%float) /\
  unseen_tuples (jacc_coeffs (ranking_step [] xyz).2) [] !! 2%nat
    = Some ("A", "y", 0.5%float) /\
  recommendations (ranking_step [] xyz).2 !! 0%nat = Some "x" /\
  recommendations (ranking_step [] xyz).2 !! 2%nat = Some "y" /\
  PrimFloat.leb 0.5 0.9 = true.
Proof.
  assert (H1 : Forall (λ t : string * string * float, in_unit (coeff t) = true)
                 (jacc_coeffs xyz)).
  { repeat constructor. }
  assert (H2 : exists t1 t2 : string * string * float,
             t1 ∈ jacc_coeffs xyz /\ t2 ∈ jacc_coeffs xyz /\
             PrimFloat.eqb (coeff t1) (coeff t2) = false).
  { exists ("A", "x", 0.9%float), ("A", "y", 0.5%float).
    split; [by left|]. split; [right; by left|reflexivity]. }
  assert (H3 : (0 < 2)%nat) by lia.
  assert (H4 : unseen_tuples (jacc_coeffs (ranking_step [] xyz).2) [] !! 0%nat
               = Some ("A", "x", 0.9%float)) by reflexivity.
  assert (H5 : unseen_tuples (jacc_coeffs (ranking_step [] xyz).2) [] !! 2%nat
               = Some ("A", "y", 0.5%float)) by reflexivity.
  exact (conj H1 (conj H4 (conj H5
    (recommendations_descending [] xyz 0 2 _ _ H1 H2 H3 H4 H5)))).
Defined.

(** C3: the sort is stable.  For a similarity list with scores in
    [0, 1] (so without NaN): two tuples of the list with [==] scores whose
    candidates are unseen, the first at an earlier position than the
    second, are let through in that order, and so are their candidates in
    [recommendations]; put differently, the tuples of any one score come
    out in the order they came in.  On
    [[(A, "x", 0.9), (A, "y", 0.5), (A, "z", 0.9)]] with nothing seen the
    output is [["x"; "z"; "y"]]. *)
Theorem ranking_is_stable :
  (forall `{EqDecision node} (S : list node) (st : nb_state node)
          (t1 t2 : node * node * float),
     Forall (λ t, in_unit (coeff t) = true) (jacc_coeffs st) ->
     before t1 t2 (jacc_coeffs st) ->
     t1.1.2 ∉ S -> t2.1.2 ∉ S ->
     PrimFloat.eqb (coeff t1) (coeff t2) = true ->
     before t1 t2 (unseen_tuples (jacc_coeffs (ranking_step S st).2) S) /\
     before t1.1.2 t2.1.2 (recommendations (ranking_step S st).2)) /\
  (forall `{EqDecision node} (S : list node) (st : nb_state node) (s : float),
     Forall (λ t, in_unit (coeff t) = true) (jacc_coeffs st) ->
     List.filter (same_key coeff s)
       (unseen_tuples (jacc_coeffs (ranking_step S st).2) S) =
     List.filter (same_key coeff s) (unseen_tuples (jacc_coeffs st) S)) /\
  Forall (λ t, in_unit (coeff t) = true) (jacc_coeffs xyz) /\
  recommendations (ranking_step [] xyz).2 = ["x"; "z"; "y"].
Proof.
  split_and!.
  - intros node ? S st t1 t2 _. apply ranking_stable_pairs.
  - intros node ? S st s _. apply ranking_stable_classes.
  - repeat constructor.
  - reflexivity.
Qed.

(** The two 0.9 tuples of the sample: "x" stays before "z". *)
Lemma ranking_is_stable_witness :
  Forall (λ t, in_unit (coeff t) = true) (jacc_coeffs xyz) /\
  before ("A", "x", 0.9%float) ("A", "z", 0.9%float) (jacc_coeffs xyz) /\
  PrimFloat.eqb 0.9 0.9 = true /\
  before "x" "z" (recommendations (ranking_step [] xyz).2).
Proof.
  assert (H0 : Forall (λ t : string * string * float, in_unit (coeff t) = true)
                 (jacc_coeffs xyz)).
  { repeat constructor. }
  assert (H1 : before ("A", "x", 0.9%float) ("A", "z", 0.9%float) (jacc_coeffs xyz)).
  { exists 0%nat, 2%nat. split; [lia|]. split; reflexivity. }
  assert (H2 : PrimFloat.eqb 0.9 0.9 = true) by reflexivity.
  assert (Hx : "x" ∉ ([] : list string)) by apply not_elem_of_nil.
  assert (Hz : "z" ∉ ([] : list string)) by apply not_elem_of_nil.
  exact (conj H0 (conj H1 (conj H2
    (proj2 (proj1 ranking_is_stable string _ [] xyz _ _ H0 H1 Hx Hz H2))))).
Defined.

(** C4, the claim as stated fails: with nothing left to recommend the step
    raises nothing and prints nothing. *)
Lemma empty_ranking_not_signalled :
  recommendations nothing_left = [] /\
  top_match_step 289308 {[1566 := "Hercules (1997)"]} nothing_left = (Ok tt, nothing_left) /\
  ~ signalled (top_match_step 289308 {[1566 := "Hercules (1997)"]} nothing_left) nothing_left.
Proof.
  split; [done|]. rewrite top_match_step_nil by done. split; [done|].
  intros [[e [=]]|Hout]; by apply Hout.
Qed.


(** C8: the title lookup returns the stored label exactly for the keys of
    the dictionary and raises [KeyError] exactly for the others; in
    [{1907: "Mulan (1998)"}] id 1907 gives "Mulan (1998)" and any other id
    raises; the dictionary built from that row of [movies.csv] is this one;
    and in the recommendation step the exception is not caught: it ends
    the step with nothing printed. *)
Theorem name_lookup_raises_iff_absent :
  (forall `{Countable node} (names : gmap node string) (k : node),
     (forall v, dict_getitem names k = Ok v <-> names !! k = Some v) /\
     (forall e, dict_getitem names k = Raise e <-> names !! k = None /\ e = KeyError k)) /\
  movie_id_name_map int [header_line; mulan_line] = Ok mulan_names /\
  dict_getitem mulan_names 1907 = Ok "Mulan (1998)" /\
  (forall k : Z, k <> 1907 -> dict_getitem mulan_names k = Raise (KeyError k)) /\
  (forall `{Countable node} `{!Pretty node} (user : node) (names : gmap node string)
          (st : nb_state node) (mid : node) (rest : list node),
     recommendations st = mid :: rest -> names !! mid = None ->
     top_match_step user names st = (Raise (KeyError mid), st)).
Proof.
  split_and!.
  - intros node ? ? names k. apply dict_getitem_raises_iff_absent.
  - vm_compute. reflexivity.
  - reflexivity.
  - intros k Hk. unfold dict_getitem, mulan_names. by rewrite lookup_singleton_ne.
  - intros node ? ? ? user names st mid rest. apply top_match_step_key_error.
Qed.

Example recommend_tarzan :
  recommend_cell 289308 [1566] {[2687 := "Tarzan (1999)"]}
    {| jacc_coeffs := [(1907, 2687, 0.25%float); (1907, 1566, 0.5%float)];
       movies_seen := []; recommendations := []; stdout := [] |} =
  (Ok tt,
   {| jacc_coeffs := [(1907, 1566, 0.5%float); (1907, 2687, 0.25%float)];
      movies_seen := [1566]; recommendations := [2687];
      stdout := ["User ID 289308 might like Tarzan (1999) (movie ID: 2687)"] |}).
Proof. vm_compute. reflexivity. Qed.

(** Outside the data model: [<] is not an order on NaN, and a list with a
    NaN score can come out of the sort with a smaller score first. *)
Example nan_score_unordered :
  list_sort (coeff (node:=string)) true
    [("A", "x", 0.1%float); ("A", "y", PrimFloat.nan); ("A", "z", 0.9%float)] =
    [("A", "x", 0.1%float); ("A", "y", PrimFloat.nan); ("A", "z", 0.9%float)] /\
  PrimFloat.leb 0.9 0.1 = false /\
  in_unit PrimFloat.nan = false.
Proof. split_and!; vm_compute; reflexivity. Qed.

End Recommender.

(** ** More on the float order and on indexing *)
Module FloatOrderMore.
Import PyFloat Py FloatOrder.

Lemma SFltb_trans f g h : SFltb f g = true -> SFltb g h = true -> SFltb f h = true.
Proof. intros H1 H2. sf_order. Qed.

Lemma SFltb_le_lt f g h :
  sf_nan f = false -> SFltb g f = false -> SFltb g h = true -> SFltb f h = true.
Proof. intros Hf H1 H2. sf_order. Qed.

Lemma ltb_trans x y z :
  PrimFloat.ltb x y = true -> PrimFloat.ltb y z = true -> PrimFloat.ltb x z = true.
Proof. rewrite !ltb_spec. apply SFltb_trans. Qed.

Lemma ltb_le_lt x y z :
  PrimFloat.is_nan x = false ->
  PrimFloat.ltb y x = false -> PrimFloat.ltb y z = true -> PrimFloat.ltb x z = true.
Proof. rewrite is_nan_spec, !ltb_spec. apply SFltb_le_lt. Qed.

(** [l[i]] for an index that is not negative. *)
Lemma list_getitem_nonneg {K A} (l : list A) (i : Z) :
  0 <= i ->
  list_getitem (K:=K) l i =
    match l !! Z.to_nat i with Some x => Ok x | None => Raise IndexError end.
Proof.
  intros Hi. unfold list_getitem. rewrite (proj2 (Z.ltb_ge i 0)) by lia.
  rewrite (proj2 (Z.ltb_ge i 0)) by lia. cbn [orb].
  destruct (Z.leb_spec (Z.of_nat (length l)) i) as [Hle|Hlt]; [|done].
  by rewrite lookup_ge_None_2 by lia.
Qed.

End FloatOrderMore.

(** ** The ratings table: the id columns *)
Module RatingsTable.
Import Py Notebook Examples Ratings.

Lemma NoDup_unique `{EqDecision A} (l : list A) : NoDup (unique l).
Proof.
  induction l as [|x l IH]; cbn [unique]; [constructor|].
  constructor.
  - rewrite list_elem_of_In, filter_In, negb_true_iff, bool_decide_eq_false. tauto.
  - apply NoDup_ListNoDup, List.NoDup_filter. by apply NoDup_ListNoDup.
Qed.

(** [unique] commutes with a function that is injective on the list. *)
Lemma unique_fmap `{EqDecision A, EqDecision B} (f : A -> B) (l : list A) :
  (forall x y, x ∈ l -> y ∈ l -> f x = f y -> x = y) ->
  unique (f <$> l) = f <$> unique l.
Proof.
  induction l as [|x l IH]; intros Hinj; [done|]. cbn [unique fmap list_fmap].
  f_equal. rewrite IH by (intros y z Hy Hz; apply Hinj; by right).
  assert (Hsub : forall y, y ∈ unique l -> y ∈ x :: l).
  { intros y Hy. right. by apply elem_of_unique. }
  revert Hsub. generalize (unique l). intros u Hsub.
  induction u as [|y u IHu]; [done|]. cbn [fmap list_fmap List.filter].
  assert (Hy : y ∈ x :: l) by (apply Hsub; by left).
  specialize (IHu ltac:(intros z Hz; apply Hsub; by right)).
  destruct (decide (y = x)) as [->|Hne].
  - rewrite !bool_decide_eq_true_2 by done. exact IHu.
  - rewrite (bool_decide_eq_false_2 (y = x)) by done.
    rewrite (bool_decide_eq_false_2 (f y = f x)).
    + cbn. by rewrite <- IHu.
    + intros Hf. apply Hne, Hinj; [done|by left|done].
Qed.

Lemma read_ratings_Ok rows r :
  read_ratings rows = Ok r ->
  rows <> [] /\
  series_max (movieId <$> rows) = Ok (max_movie_id r) /\
  ratings_df r = add_to_userId (max_movie_id r) <$> rows /\
  all_user_ids r = unique (userId <$> ratings_df r) /\
  all_movie_ids r = unique (movieId <$> rows).
Proof.
  destruct rows as [|r0 rows']; [done|]. intros Hr.
  destruct (read_ratings_run r0 rows') as (mx & Hmax & Hrun).
  rewrite Hrun in Hr. injection Hr as <-. cbn [max_movie_id ratings_df all_user_ids all_movie_ids].
  by rewrite movieId_add_to_userId.
Qed.

Lemma wrap32_offset_inj u v mx :
  0 < u <= int32_max -> 0 < v <= int32_max -> 0 < mx <= int32_max ->
  wrap32 (u + mx) = wrap32 (v + mx) -> u = v.
Proof.
  unfold int32_max. intros Hu Hv Hm.
  destruct (Z_lt_le_dec (u + mx) (2 ^ 31)), (Z_lt_le_dec (v + mx) (2 ^ 31));
    rewrite ?(wrap32_small (u + mx)), ?(wrap32_small (v + mx)),
      ?(wrap32_overflow (u + mx)), ?(wrap32_overflow (v + mx)) by lia; lia.
Qed.

Lemma max_movie_id_valid rows r :
  Forall (λ r, 0 < userId r <= int32_max /\ 0 < movieId r <= int32_max) rows ->
  read_ratings rows = Ok r -> 0 < max_movie_id r <= int32_max.
Proof.
  intros Hv (_ & Hmax & _)%read_ratings_Ok.
  apply series_max_spec in Hmax as [Hin _].
  apply list_elem_of_fmap in Hin as (row & -> & Hrow).
  rewrite Forall_forall in Hv. by apply Hv.
Qed.

(** X1: with positive [int32] ids, two rows of different users still have
    different user ids after [max_movie_id] is added, wrap-around or not;
    so [all_user_ids] is the list of distinct raw user ids, each offset,
    in the same order, and the table has as many user nodes as it had
    users. *)
Theorem offset_keeps_users_distinct rows r :
  Forall (λ r, 0 < userId r <= int32_max /\ 0 < movieId r <= int32_max) rows ->
  read_ratings rows = Ok r ->
  (forall row1 row2, row1 ∈ rows -> row2 ∈ rows ->
     userId (add_to_userId (max_movie_id r) row1) =
     userId (add_to_userId (max_movie_id r) row2) ->
     userId row1 = userId row2) /\
  all_user_ids r = (λ u, wrap32 (u + max_movie_id r)) <$> unique (userId <$> rows) /\
  length (all_user_ids r) = length (unique (userId <$> rows)).
Proof.
  intros Hv Hr. pose proof (max_movie_id_valid _ _ Hv Hr) as Hmx.
  pose proof Hr as (_ & _ & Hdf & Hu & _)%read_ratings_Ok.
  rewrite Forall_forall in Hv.
  assert (Hinj : forall row1 row2, row1 ∈ rows -> row2 ∈ rows ->
     wrap32 (userId row1 + max_movie_id r) = wrap32 (userId row2 + max_movie_id r) ->
     userId row1 = userId row2).
  { intros row1 row2 H1 H2. apply wrap32_offset_inj; [by apply Hv..|done]. }
  assert (Hall : all_user_ids r =
            (λ u, wrap32 (u + max_movie_id r)) <$> unique (userId <$> rows)).
  { rewrite Hu, Hdf, <- list_fmap_compose.
    rewrite <- unique_fmap.
    - by rewrite <- list_fmap_compose.
    - intros u v (r1 & -> & H1)%list_elem_of_fmap (r2 & -> & H2)%list_elem_of_fmap.
      by apply Hinj. }
  split_and!; [exact Hinj|exact Hall|]. by rewrite Hall, length_fmap.
Qed.

Lemma offset_keeps_users_distinct_witness :
  Forall (λ r, 0 < userId r <= int32_max /\ 0 < movieId r <= int32_max) raw_ratings /\
  read_ratings raw_ratings = Ok raw_ratings_read /\
  length (all_user_ids raw_ratings_read) = length (unique (userId <$> raw_ratings)).
Proof.
  assert (H1 : Forall (λ r, 0 < userId r <= int32_max /\ 0 < movieId r <= int32_max)
                 raw_ratings).
  { repeat constructor; vm_compute; congruence. }
  assert (H2 : read_ratings raw_ratings = Ok raw_ratings_read) by (vm_compute; reflexivity).
  exact (conj H1 (conj H2
    (proj2 (proj2 (offset_keeps_users_distinct raw_ratings raw_ratings_read H1 H2))))).
Defined.

(** X2: the id stored for a row is the plain sum [userId + max_movie_id]
    as long as the sum fits in an [int32]; when it does not, the stored id
    is the sum minus 2^32, a negative number, and nothing is raised. *)
Theorem offset_user_id_value rows r row :
  Forall (λ r, 0 < userId r <= int32_max /\ 0 < movieId r <= int32_max) rows ->
  read_ratings rows = Ok r -> row ∈ rows ->
  add_to_userId (max_movie_id r) row ∈ ratings_df r /\
  (userId row + max_movie_id r <= int32_max ->
     userId (add_to_userId (max_movie_id r) row) = userId row + max_movie_id r) /\
  (int32_max < userId row + max_movie_id r ->
     userId (add_to_userId (max_movie_id r) row) = userId row + max_movie_id r - 2 ^ 32 /\
     userId (add_to_userId (max_movie_id r) row) < 0).
Proof.
  intros Hv Hr Hrow. pose proof (max_movie_id_valid _ _ Hv Hr) as Hmx.
  pose proof Hr as (_ & _ & Hdf & _)%read_ratings_Ok.
  rewrite Forall_forall in Hv. destruct (Hv _ Hrow) as [Hu _].
  unfold int32_max in *. cbn [userId add_to_userId].
  split_and!.
  - rewrite Hdf. apply list_elem_of_fmap. by exists row.
  - intros Hle. apply wrap32_small. lia.
  - intros Hgt. rewrite wrap32_overflow by lia. lia.
Qed.

Lemma offset_user_id_value_witness :
  Forall (λ r, 0 < userId r <= int32_max /\ 0 < movieId r <= int32_max) raw_ratings /\
  read_ratings raw_ratings = Ok raw_ratings_read /\
  {| userId := 2147483647; movieId := 5; rating := 4 |} ∈ raw_ratings /\
  (int32_max < 2147483647 + 7 ->
     wrap32 (2147483647 + 7) = 2147483647 + 7 - 2 ^ 32 /\ wrap32 (2147483647 + 7) < 0).
Proof.
  assert (H1 : Forall (λ r, 0 < userId r <= int32_max /\ 0 < movieId r <= int32_max)
                 raw_ratings).
  { repeat constructor; vm_compute; congruence. }
  assert (H2 : read_ratings raw_ratings = Ok raw_ratings_read) by (vm_compute; reflexivity).
  assert (H3 : {| userId := 2147483647; movieId := 5; rating := 4 |} ∈ raw_ratings)
    by (by left).
  exact (conj H1 (conj H2 (conj H3
    (proj2 (proj2 (offset_user_id_value raw_ratings raw_ratings_read _ H1 H2 H3)))))).
Defined.

(** X3: when the cell succeeds, [all_user_ids] and [all_movie_ids] hold no
    value twice, [all_movie_ids] holds exactly the movie ids of the rows
    and [all_user_ids] exactly the offset user ids, and [max_movie_id] is
    one of the movie ids and the largest of them. *)
Theorem id_lists_of_ratings rows r :
  read_ratings rows = Ok r ->
  NoDup (all_user_ids r) /\ NoDup (all_movie_ids r) /\
  (forall m, m ∈ all_movie_ids r <-> exists row, row ∈ rows /\ movieId row = m) /\
  (forall u, u ∈ all_user_ids r <->
     exists row, row ∈ rows /\ wrap32 (userId row + max_movie_id r) = u) /\
  max_movie_id r ∈ all_movie_ids r /\
  (forall m, m ∈ all_movie_ids r -> m <= max_movie_id r).
Proof.
  intros (_ & Hmax & Hdf & Hu & Hm)%read_ratings_Ok.
  apply series_max_spec in Hmax as [Hin Hle].
  rewrite Hu, Hm, Hdf. split_and!; try apply NoDup_unique.
  - intros m. rewrite elem_of_unique, list_elem_of_fmap. split.
    + intros (row & -> & Hrow). by exists row.
    + intros (row & Hrow & <-). by exists row.
  - intros u. rewrite elem_of_unique, <- list_fmap_compose, list_elem_of_fmap. split.
    + intros (row & -> & Hrow). by exists row.
    + intros (row & Hrow & <-). by exists row.
  - by rewrite elem_of_unique.
  - intros m. rewrite elem_of_unique. apply Hle.
Qed.

Lemma id_lists_of_ratings_witness :
  read_ratings raw_ratings = Ok raw_ratings_read /\
  NoDup (all_user_ids raw_ratings_read).
Proof.
  assert (H1 : read_ratings raw_ratings = Ok raw_ratings_read) by (vm_compute; reflexivity).
  exact (conj H1 (proj1 (id_lists_of_ratings raw_ratings raw_ratings_read H1))).
Defined.

End RatingsTable.

(** ** Good reviews and their statistics *)
Module GoodReviews.
Import Py Notebook Examples Ratings RatingsTable Ebunch.

Lemma elem_of_good_ratings_df row df :
  row ∈ good_ratings_df df <-> row ∈ df /\ PrimFloat.leb 3 (rating row) = true.
Proof. unfold good_ratings_df. by rewrite !list_elem_of_In, filter_In. Qed.

(** X4: a movie id is in [good_movie_ids] exactly when some row of the
    table rates that movie 3 or more (a NaN rating never counts), and
    likewise for users; both lists hold no value twice and are drawn from
    the ids of the whole table. *)
Theorem good_ids_spec (df : list rating_row) :
  (forall m, m ∈ good_movie_ids df <->
     exists row, row ∈ df /\ movieId row = m /\ PrimFloat.leb 3 (rating row) = true) /\
  (forall u, u ∈ good_user_ids df <->
     exists row, row ∈ df /\ userId row = u /\ PrimFloat.leb 3 (rating row) = true) /\
  NoDup (good_movie_ids df) /\ NoDup (good_user_ids df) /\
  (forall m, m ∈ good_movie_ids df -> m ∈ unique (movieId <$> df)) /\
  (forall u, u ∈ good_user_ids df -> u ∈ unique (userId <$> df)).
Proof.
  assert (Hm : forall m, m ∈ good_movie_ids df <->
     exists row, row ∈ df /\ movieId row = m /\ PrimFloat.leb 3 (rating row) = true).
  { intros m. unfold good_movie_ids. rewrite elem_of_unique, list_elem_of_fmap. split.
    - intros (row & -> & [Hr Hg]%elem_of_good_ratings_df). by exists row.
    - intros (row & Hr & <- & Hg). exists row. split; [done|].
      by apply elem_of_good_ratings_df. }
  assert (Hu : forall u, u ∈ good_user_ids df <->
     exists row, row ∈ df /\ userId row = u /\ PrimFloat.leb 3 (rating row) = true).
  { intros u. unfold good_user_ids. rewrite elem_of_unique, list_elem_of_fmap. split.
    - intros (row & -> & [Hr Hg]%elem_of_good_ratings_df). by exists row.
    - intros (row & Hr & <- & Hg). exists row. split; [done|].
      by apply elem_of_good_ratings_df. }
  split_and!; [exact Hm|exact Hu|apply NoDup_unique..| |].
  - intros m (row & Hr & <- & _)%Hm. rewrite elem_of_unique, list_elem_of_fmap. by exists row.
  - intros u (row & Hr & <- & _)%Hu. rewrite elem_of_unique, list_elem_of_fmap. by exists row.
Qed.

Lemma length_zero_unique `{EqDecision A} (l : list A) : length (unique l) = 0%nat <-> l = [].
Proof. destruct l; cbn; split; done. Qed.

(** X5: after a successful read of the ratings the statistics cell either
    prints its six lines, and then some review is rated 3 or more, or it
    stops with [ZeroDivisionError] after five lines, and then no review
    is: the average of good reviews per user divides by the number of
    users with good ratings. *)
Theorem stats_cell_zero_division ratio rows r :
  read_ratings rows = Ok r ->
  match stats_cell ratio r with
  | StatsPrinted lines =>
      length lines = 6%nat /\
      exists row, row ∈ rows /\ PrimFloat.leb 3 (rating row) = true
  | StatsZeroDivisionError printed =>
      length printed = 5%nat /\
      forall row, row ∈ rows -> PrimFloat.leb 3 (rating row) = false
  end.
Proof.
  intros (Hne & _ & Hdf & Hu & _)%read_ratings_Ok. unfold stats_cell.
  rewrite bool_decide_eq_false_2.
  2: { rewrite Hu, length_zero_unique, Hdf. by destruct rows. }
  assert (Hgood : forall row, row ∈ rows ->
            PrimFloat.leb 3 (rating row) = true ->
            add_to_userId (max_movie_id r) row ∈ good_ratings_df (ratings_df r)).
  { intros row Hrow Hg. apply elem_of_good_ratings_df. split; [|done].
    rewrite Hdf. apply list_elem_of_fmap. by exists row. }
  case_bool_decide as Hz; unfold good_user_ids in Hz.
  - split; [done|]. intros row Hrow. destruct (PrimFloat.leb 3 (rating row)) eqn:Hg; [|done].
    exfalso. apply length_zero_unique, fmap_nil_inv in Hz.
    specialize (Hgood _ Hrow Hg). rewrite Hz in Hgood. by apply not_elem_of_nil in Hgood.
  - split; [done|]. rewrite length_zero_unique in Hz.
    destruct (good_ratings_df (ratings_df r)) as [|g gs] eqn:Hg; [done|].
    assert (Hin : g ∈ good_ratings_df (ratings_df r)) by (rewrite Hg; by left).
    apply elem_of_good_ratings_df in Hin as [Hin Hge]. rewrite Hdf in Hin.
    apply list_elem_of_fmap in Hin as (row & -> & Hrow). by exists row.
Qed.

Lemma stats_cell_zero_division_witness :
  read_ratings raw_ratings = Ok raw_ratings_read /\
  match stats_cell (λ _ _, "1.50") raw_ratings_read with
  | StatsPrinted lines =>
      length lines = 6%nat /\
      exists row, row ∈ raw_ratings /\ PrimFloat.leb 3 (rating row) = true
  | StatsZeroDivisionError printed =>
      length printed = 5%nat /\
      forall row, row ∈ raw_ratings -> PrimFloat.leb 3 (rating row) = false
  end.
Proof.
  assert (H1 : read_ratings raw_ratings = Ok raw_ratings_read) by (vm_compute; reflexivity).
  exact (conj H1 (stats_cell_zero_division (λ _ _, "1.50") raw_ratings raw_ratings_read H1)).
Defined.

(** X11: whatever the anchor, the movie of the first good review of the
    table is the first entry of [good_movie_ids] and is never paired with
    the anchor in [ebunch]. *)
Theorem first_good_movie_never_paired (df : list rating_row) row0 rest movie_id :
  good_ratings_df df = row0 :: rest ->
  good_movie_ids df !! 0%nat = Some (movieId row0) /\
  (movie_id, movieId row0) ∉ ebunch movie_id (good_movie_ids df).
Proof.
  intros Hg. unfold good_movie_ids. rewrite Hg. cbn [fmap list_fmap unique].
  split; [done|]. apply ebunch_omits_first.
  rewrite list_elem_of_In, filter_In, negb_true_iff, bool_decide_eq_false. tauto.
Qed.

Lemma first_good_movie_never_paired_witness :
  good_ratings_df three_good_reviews =
    {| userId := 11; movieId := 10; rating := 4 |}
    :: [ {| userId := 11; movieId := 20; rating := 5 |};
         {| userId := 12; movieId := 30; rating := 3.5 |} ] /\
  good_movie_ids three_good_reviews !! 0%nat = Some 10 /\
  (20, 10) ∉ ebunch 20 (good_movie_ids three_good_reviews).
Proof.
  assert (H1 : good_ratings_df three_good_reviews =
    {| userId := 11; movieId := 10; rating := 4 |}
    :: [ {| userId := 11; movieId := 20; rating := 5 |};
         {| userId := 12; movieId := 30; rating := 3.5 |} ]) by reflexivity.
  exact (conj H1 (first_good_movie_never_paired three_good_reviews _ _ 20 H1)).
Defined.

End GoodReviews.

(** ** The id-to-title dictionary as a whole *)
Module NameMapEntries.
Import Py Notebook Strings Examples NameMap.

Section entries_facts.
Variable int_of_str : string -> option Z.
Implicit Types (m : gmap Z string) (line : string) (lines : list string).

Lemma name_map_line_entry m line :
  name_map_line int_of_str m line =
    Ok (match line_entry int_of_str line with
        | Some (k, label) => <[k := label]> m
        | None => m
        end).
Proof.
  destruct (name_map_line_run int_of_str m line) as (item0 & rest & Hs & ->).
  unfold line_entry. rewrite Hs. by destruct (int_of_str item0).
Qed.

Lemma last_label_snoc k lines line :
  last_label int_of_str k (lines ++ [line]) =
    match line_entry int_of_str line with
    | Some (k', label) => if decide (k' = k) then Some label else last_label int_of_str k lines
    | None => last_label int_of_str k lines
    end.
Proof.
  unfold last_label. rewrite omap_app, List.filter_app.
  change (omap (line_entry int_of_str) [line]) with
    (match line_entry int_of_str line with Some e => [e] | None => [] end).
  destruct (line_entry int_of_str line) as [[k' label]|]; cbn [List.filter fst].
  - destruct (decide (k' = k)) as [->|Hne].
    + rewrite bool_decide_eq_true_2 by done. by rewrite last_snoc.
    + rewrite bool_decide_eq_false_2 by done. by rewrite app_nil_r.
  - by rewrite app_nil_r.
Qed.

Lemma name_map_loop_lookup m lines :
  exists m', name_map_loop int_of_str m lines = Ok m' /\
    forall k, m' !! k =
      match last_label int_of_str k lines with
      | Some label => Some label
      | None => m !! k
      end.
Proof.
  induction lines as [|line lines IH] using rev_ind.
  - exists m. split; [done|]. intros k. done.
  - destruct IH as (m1 & Hm1 & Hl). rewrite name_map_loop_app, Hm1. cbn.
    rewrite name_map_line_entry. eexists. split; [done|]. intros k.
    rewrite last_label_snoc.
    destruct (line_entry int_of_str line) as [[k' label]|]; [|apply Hl].
    destruct (decide (k' = k)) as [->|Hne].
    + by rewrite lookup_insert_eq.
    + rewrite lookup_insert_ne by done. apply Hl.
Qed.

(** X6: the cell raises on no file: it always ends with a dictionary, in
    which an id maps to the label of the last line carrying that id, and
    whose keys are exactly the ids that some line carries. *)
Theorem movie_id_name_map_last_wins lines :
  exists m, movie_id_name_map int_of_str lines = Ok m /\
    (forall k, m !! k = last_label int_of_str k lines) /\
    (forall k, is_Some (m !! k) <->
       exists line label, line ∈ lines /\ line_entry int_of_str line = Some (k, label)).
Proof.
  destruct (name_map_loop_lookup ∅ lines) as (m & Hm & Hl). exists m.
  assert (Hk : forall k, m !! k = last_label int_of_str k lines).
  { intros k. rewrite Hl. by destruct (last_label int_of_str k lines). }
  split_and!; [done..|]. intros k. rewrite Hk. unfold last_label. split.
  - intros [label Hlast]. apply fmap_Some in Hlast as ([k' l'] & Hlast & ->).
    apply last_Some_elem_of in Hlast.
    apply list_elem_of_In, filter_In in Hlast as [Hin Hkk].
    apply bool_decide_eq_true in Hkk. cbn in Hkk. subst k'.
    apply list_elem_of_In in Hin. apply list_elem_of_omap in Hin as (line & Hline & He).
    by exists line, l'.
  - intros (line & label & Hline & He).
    assert (Hin : (k, label) ∈ List.filter (λ e : Z * string, bool_decide (e.1 = k))
                                 (omap (line_entry int_of_str) lines)).
    { apply list_elem_of_In, filter_In. split.
      - apply list_elem_of_In. apply list_elem_of_omap. by exists line.
      - by apply bool_decide_eq_true. }
    destruct (List.filter _ _) as [|e es] using rev_ind; [by apply not_elem_of_nil in Hin|].
    rewrite last_snoc. by eexists.
Qed.

(** X7: a line without any comma whose whole text parses as an integer is
    stored with the empty string as label ([items[1:-1]] of a one-item list
    is empty). *)
Theorem one_field_line_empty_label m line mid :
  str_contains comma line = false ->
  int_of_str line = Some mid ->
  name_map_line int_of_str m line = Ok (<[mid := ""]> m).
Proof.
  intros Hc Hint. rewrite name_map_line_entry. unfold line_entry.
  rewrite str_split_no_sep by done. rewrite Hint.
  by rewrite slice_middle_short by (cbn; lia).
Qed.
End entries_facts.

Lemma one_field_line_empty_label_witness :
  str_contains comma ("5" +:+ LF) = false /\
  int ("5" +:+ LF) = Some 5 /\
  name_map_line int mulan_names ("5" +:+ LF) = Ok (<[5 := ""]> mulan_names).
Proof.
  assert (H1 : str_contains comma ("5" +:+ LF) = false) by reflexivity.
  assert (H2 : int ("5" +:+ LF) = Some 5) by (vm_compute; reflexivity).
  exact (conj H1 (conj H2 (one_field_line_empty_label int mulan_names _ _ H1 H2))).
Defined.

End NameMapEntries.

(** ** Picking the user and the movie *)
Module PickUser.
Import PyFloat Py Notebook FloatOrder FloatOrderMore ListSort Examples.

Section max_key_facts.
Context {A : Type} (key : A -> float).

(** The item [max] keeps: the items before it have a smaller key, no item
    after it has a greater one. *)
Lemma max_from_spec l1 best l2 l :
  no_nan key (l1 ++ best :: l2 ++ l) ->
  Forall (λ x, PrimFloat.ltb (key x) (key best) = true) l1 ->
  Forall (λ x, PrimFloat.ltb (key best) (key x) = false) l2 ->
  exists m1 m2, l1 ++ best :: l2 ++ l = m1 ++ max_from key best l :: m2 /\
    Forall (λ x, PrimFloat.ltb (key x) (key (max_from key best l)) = true) m1 /\
    Forall (λ x, PrimFloat.ltb (key (max_from key best l)) (key x) = false) m2.
Proof.
  revert l1 best l2. induction l as [|x l IH]; intros l1 best l2 Hn H1 H2.
  - exists l1, l2. by rewrite app_nil_r.
  - cbn [max_from]. destruct (PrimFloat.ltb (key best) (key x)) eqn:Hlt.
    + specialize (IH (l1 ++ best :: l2) x []).
      replace ((l1 ++ best :: l2) ++ x :: [] ++ l) with (l1 ++ best :: l2 ++ x :: l) in IH
        by (by rewrite <- app_assoc).
      apply IH; [done| |constructor].
      apply Forall_app. split; [|constructor].
      * eapply Forall_impl; [exact H1|]. intros y Hy. by apply ltb_trans with (key best).
      * done.
      * unfold no_nan in Hn. rewrite Forall_app, Forall_cons, Forall_app in Hn.
        destruct Hn as (_ & _ & Hn2 & _).
        rewrite Forall_forall in *. intros y Hy.
        apply ltb_le_lt with (key best); [by apply Hn2|by apply H2|done].
    + specialize (IH l1 best (l2 ++ [x])).
      replace (l1 ++ best :: (l2 ++ [x]) ++ l) with (l1 ++ best :: l2 ++ x :: l) in IH
        by (by rewrite <- app_assoc).
      apply IH; [done..|]. apply Forall_app. split; [done|]. by constructor.
Qed.

Lemma max_key_first_maximum {K} l r :
  no_nan key l -> max_key (K:=K) key l = Ok r ->
  exists m1 m2, l = m1 ++ r :: m2 /\
    Forall (λ x, PrimFloat.ltb (key x) (key r) = true) m1 /\
    Forall (λ x, PrimFloat.ltb (key r) (key x) = false) m2.
Proof.
  destruct l as [|x l]; [done|]. cbn. intros Hn [= <-].
  apply (max_from_spec [] x [] l Hn); constructor.
Qed.
End max_key_facts.

(** X8: when the cell succeeds (ratings without NaN), the user is
    [good_user_ids[321]] and the movie is a neighbour of that user whose
    rating no other neighbour exceeds; among the neighbours with that
    rating it is the first in the order of the adjacency: every neighbour
    listed before it is rated strictly lower. *)
Theorem pick_user_and_movie_highest good_user_ids (G : gmap Z adjacency) user movie :
  pick_user_and_movie good_user_ids G = Ok (user, movie) ->
  (forall reviews, G !! user = Some reviews ->
     no_nan (review_rating reviews) reviews.*1) ->
  good_user_ids !! 321%nat = Some user /\
  exists reviews before after,
    G !! user = Some reviews /\
    reviews.*1 = before ++ movie :: after /\
    Forall (λ n, PrimFloat.ltb (review_rating reviews n) (review_rating reviews movie) = true)
      before /\
    Forall (λ n, PrimFloat.ltb (review_rating reviews movie) (review_rating reviews n) = false)
      after.
Proof.
  unfold pick_user_and_movie. rewrite list_getitem_nonneg by lia.
  change (Z.to_nat 321) with 321%nat.
  destruct (good_user_ids !! 321%nat) as [u|] eqn:Hu; [|done].
  unfold dict_getitem. destruct (G !! u) as [reviews|] eqn:HG; [|done].
  destruct (max_key _ _) as [m|e] eqn:Hmax; [|done].
  intros [= <- <-] Hn. split; [done|].
  apply max_key_first_maximum in Hmax as (m1 & m2 & Hsplit & H1 & H2); [|by apply Hn].
  by exists reviews, m1, m2.
Qed.

Lemma pick_user_and_movie_highest_witness :
  pick_user_and_movie many_users one_user_graph = Ok (322, 20) /\
  many_users !! 321%nat = Some 322 /\
  exists reviews before after,
    one_user_graph !! 322 = Some reviews /\
    reviews.*1 = before ++ 20 :: after /\
    Forall (λ n, PrimFloat.ltb (review_rating reviews n) (review_rating reviews 20) = true)
      before /\
    Forall (λ n, PrimFloat.ltb (review_rating reviews 20) (review_rating reviews n) = false)
      after.
Proof.
  assert (H1 : pick_user_and_movie many_users one_user_graph = Ok (322, 20))
    by (vm_compute; reflexivity).
  assert (H2 : forall reviews, one_user_graph !! 322 = Some reviews ->
                 no_nan (review_rating reviews) reviews.*1).
  { intros reviews Hr. unfold one_user_graph in Hr.
    rewrite lookup_singleton_eq in Hr. injection Hr as <-.
    repeat constructor. }
  exact (conj H1 (pick_user_and_movie_highest many_users one_user_graph 322 20 H1 H2)).
Defined.

(** X9: the cell stops with [IndexError] when there are fewer than 322
    users with good ratings, with [KeyError] when the user is not a node
    of the graph, with [ValueError] when the user has no neighbour; in
    every other case it picks a movie. *)
Theorem pick_user_and_movie_errors good_user_ids (G : gmap Z adjacency) :
  ((length good_user_ids <= 321)%nat ->
     pick_user_and_movie good_user_ids G = Raise IndexError) /\
  (forall user, good_user_ids !! 321%nat = Some user -> G !! user = None ->
     pick_user_and_movie good_user_ids G = Raise (KeyError user)) /\
  (forall user, good_user_ids !! 321%nat = Some user -> G !! user = Some [] ->
     pick_user_and_movie good_user_ids G = Raise ValueError) /\
  (forall user reviews, good_user_ids !! 321%nat = Some user ->
     G !! user = Some reviews -> reviews <> [] ->
     exists movie, pick_user_and_movie good_user_ids G = Ok (user, movie)).
Proof.
  unfold pick_user_and_movie. rewrite list_getitem_nonneg by lia.
  change (Z.to_nat 321) with 321%nat. unfold dict_getitem. split_and!.
  - intros Hl. by rewrite lookup_ge_None_2.
  - intros user -> ->. done.
  - intros user -> ->. done.
  - intros user reviews -> -> Hne. destruct reviews as [|e es]; [done|]. cbn. by eexists.
Qed.

End PickUser.

(** ** The node pairs in general *)
Module Pairs.
Import Py Notebook Strings Examples Ebunch.

Lemma length_filter_ne (x : Z) (l : list Z) :
  NoDup l ->
  length (List.filter (λ n, negb (bool_decide (n = x))) l) =
    (length l - (if bool_decide (x ∈ l) then 1 else 0))%nat.
Proof.
  induction 1 as [|y l Hy Hl IH]; [done|]. cbn [List.filter length].
  destruct (decide (y = x)) as [->|Hne].
  - rewrite bool_decide_eq_true_2 by done. cbn [negb].
    rewrite (bool_decide_eq_true_2 (x ∈ x :: l)) by (by left).
    rewrite IH, bool_decide_eq_false_2 by done. lia.
  - rewrite bool_decide_eq_false_2 by done. cbn [negb length]. rewrite IH.
    destruct (decide (x ∈ l)) as [Hin|Hnin].
    + rewrite !bool_decide_eq_true_2; [|by right|done].
      destruct l; [by apply not_elem_of_nil in Hin|cbn; lia].
    + rewrite !bool_decide_eq_false_2; [lia| |done].
      intros [?|?]%elem_of_cons; [by subst|done].
Qed.

(** X10: for a list of good movie ids without repetition, [ebunch] holds
    the pair (anchor, n) exactly for the ids n of the list other than the
    anchor and other than the first id of the list; it holds no pair
    twice, and its length is the number of ids after the first, less one
    if the anchor is among them. *)
Theorem ebunch_pairs movie_id ids :
  NoDup ids ->
  (forall a n, (a, n) ∈ ebunch movie_id ids <->
     a = movie_id /\ n ∈ ids /\ n <> movie_id /\ ids !! 0%nat <> Some n) /\
  NoDup (ebunch movie_id ids) /\
  length (ebunch movie_id ids) =
    (length (drop 1 ids) - (if bool_decide (movie_id ∈ drop 1 ids) then 1 else 0))%nat.
Proof.
  intros Hnd. split_and!.
  - intros a n. rewrite elem_of_ebunch. destruct ids as [|i0 ids]; cbn.
    + split; [by intros (_ & ?%not_elem_of_nil & _)|by intros (_ & ?%not_elem_of_nil & _)].
    + apply NoDup_cons in Hnd as [Hi0 _]. rewrite elem_of_cons. split.
      * intros (-> & Hn & Hne). split_and!; [done|by right|done|]. intros [= ->]. done.
      * intros (-> & [->|Hn] & Hne & H0); [done|]. done.
  - unfold ebunch. rewrite slice_tail. apply NoDup_fmap_2.
    + by intros x y [=].
    + apply NoDup_ListNoDup, List.NoDup_filter, NoDup_ListNoDup.
      destruct ids; [constructor|]. by apply NoDup_cons in Hnd as [_ ?].
  - unfold ebunch. rewrite slice_tail, length_fmap. apply length_filter_ne.
    destruct ids; [constructor|]. by apply NoDup_cons in Hnd as [_ ?].
Qed.

Lemma ebunch_pairs_witness :
  NoDup [10; 20; 30] /\
  NoDup (ebunch 20 [10; 20; 30]) /\
  length (ebunch 20 [10; 20; 30]) =
    (length (drop 1 [10; 20; 30])
     - (if bool_decide (20 ∈ drop 1 [10; 20; 30]) then 1 else 0))%nat.
Proof.
  assert (H1 : NoDup [10; 20; 30]).
  { apply (bool_decide_unpack _). vm_compute. exact I. }
  exact (conj H1 (proj2 (ebunch_pairs 20 [10; 20; 30] H1))).
Defined.

End Pairs.

(** ** Ranking: what is recommended *)
Module Ranking.
Import PyFloat Py Notebook FloatOrder ListSort Strings Examples Recommender.

Lemma filter_Permutation {A} (p : A -> bool) (l l' : list A) :
  l ≡ₚ l' -> List.filter p l ≡ₚ List.filter p l'.
Proof.
  induction 1 as [|x l l' Hp IH|x y l|l1 l2 l3 H1 IH1 H2 IH2]; cbn.
  - done.
  - destruct (p x); [by constructor|done].
  - destruct (p x), (p y); try done. apply Permutation_swap.
  - by etrans.
Qed.

Section sorted_again.
Context {A : Type} (key : A -> float).

Lemma list_sort_reverse_sorted l :
  no_nan key l -> StronglySorted (flip (asc key)) (list_sort key true l).
Proof.
  intros Hn. cbn [list_sort]. apply StronglySorted_rev, stable_sort_asc.
  unfold no_nan. by rewrite <- Permutation_rev.
Qed.

(** Sorting a list that [list.sort] has sorted changes nothing. *)
Lemma list_sort_idempotent l :
  no_nan key l -> list_sort key true (list_sort key true l) = list_sort key true l.
Proof.
  intros Hn. symmetry. apply list_sort_unique.
  - unfold no_nan. by rewrite list_sort_perm.
  - done.
  - by apply list_sort_reverse_sorted.
  - done.
Qed.
End sorted_again.

Ltac run_step :=
  (rewrite !ranking_step_run in *);
  (cbn [snd fst jacc_coeffs movies_seen recommendations stdout] in *).

Section recs.
Context `{Countable node} `{!Pretty node}.
Implicit Types (st : nb_state node) (S seen : list node) (t : node * node * float).

(** X12: the recommended ids are the candidates of the unseen tuples of
    the similarity list, rearranged: the same ids as many times; the list
    is empty exactly when every candidate has been seen. *)
Theorem recommendations_permute_unseen S st :
  recommendations (ranking_step S st).2 ≡ₚ unseen_mids (jacc_coeffs st) S /\
  length (recommendations (ranking_step S st).2) =
    length (unseen_tuples (jacc_coeffs st) S) /\
  (recommendations (ranking_step S st).2 = [] <->
     forall t, t ∈ jacc_coeffs st -> t.1.2 ∈ S).
Proof.
  run_step.
  assert (Hp : unseen_mids (list_sort coeff true (jacc_coeffs st)) S ≡ₚ
               unseen_mids (jacc_coeffs st) S).
  { unfold unseen_mids, unseen_tuples. apply fmap_Permutation, filter_Permutation,
      list_sort_perm. }
  split_and!; [done| |].
  - rewrite Hp. unfold unseen_mids. by rewrite length_fmap.
  - split.
    + intros Hnil [[u m] p] Ht. cbn. destruct (decide (m ∈ S)) as [|Hm]; [done|].
      assert (Hin : m ∈ unseen_mids (list_sort coeff true (jacc_coeffs st)) S).
      { rewrite Hp. apply elem_of_unseen_mids. split; [by exists u, p|done]. }
      rewrite Hnil in Hin. by apply not_elem_of_nil in Hin.
    + intros Hall. apply Permutation_nil_r. rewrite Hp.
      destruct (unseen_mids (jacc_coeffs st) S) as [|m ms] eqn:E; [done|].
      assert (Hin : m ∈ unseen_mids (jacc_coeffs st) S) by (rewrite E; by left).
      apply elem_of_unseen_mids in Hin as [(u & p & Ht) Hm].
      exfalso. apply Hm. exact (Hall _ Ht).
Qed.

(** X13: for scores in [0, 1], the first recommendation, when there is
    one, is an unseen candidate of the similarity list whose score is at
    least the score of every unseen candidate. *)
Theorem top_recommendation_most_similar S st mid rest :
  Forall (λ t, in_unit (coeff t) = true) (jacc_coeffs st) ->
  recommendations (ranking_step S st).2 = mid :: rest ->
  (mid ∉ S) /\
  exists u p, (u, mid, p) ∈ jacc_coeffs st /\
    forall t, t ∈ jacc_coeffs st -> t.1.2 ∉ S -> PrimFloat.leb (coeff t) p = true.
Proof.
  intros Hunit Hrec. run_step.
  pose proof (in_unit_no_nan _ Hunit) as Hn.
  pose proof (list_sort_desc coeff _ Hn) as Hs.
  apply (StronglySorted_filter _ (λ '(_, m, _), negb (list_contains m S))) in Hs.
  fold (unseen_tuples (list_sort coeff true (jacc_coeffs st)) S) in Hs.
  unfold unseen_mids in Hrec.
  destruct (unseen_tuples (list_sort coeff true (jacc_coeffs st)) S)
    as [|[[u m] p] ts] eqn:E; [done|].
  cbn in Hrec. injection Hrec as -> Hrest.
  assert (Hhd : (u, mid, p) ∈ unseen_tuples (list_sort coeff true (jacc_coeffs st)) S)
    by (rewrite E; by left).
  apply elem_of_unseen_tuples in Hhd as [Hhd Hseen]. cbn in Hseen.
  rewrite (list_sort_perm coeff true (jacc_coeffs st)) in Hhd.
  split; [done|]. exists u, p. split; [done|]. intros t Ht Hts.
  assert (Hin : t ∈ unseen_tuples (list_sort coeff true (jacc_coeffs st)) S).
  { apply elem_of_unseen_tuples. split; [|done].
    by rewrite (list_sort_perm coeff true (jacc_coeffs st)). }
  rewrite E in Hin. apply StronglySorted_inv in Hs as [_ Hall].
  apply elem_of_cons in Hin as [->|Hin].
  - cbn. unfold no_nan in Hn. rewrite Forall_forall in Hn.
    assert (Hnp : PrimFloat.is_nan p = false).
    { apply (Hn (u, mid, p)). by rewrite <- (list_sort_perm coeff true (jacc_coeffs st)) in Hhd. }
    apply ltb_false_leb; [done..|].
    destruct (PrimFloat.ltb p p) eqn:Hpp; [|done]. by rewrite (ltb_asym _ _ Hpp) in Hpp.
  - rewrite Forall_forall in Hall. exact (Hall _ Hin).
Qed.

(** X14: for scores in [0, 1], running the ranking step a second time,
    for the same or for other neighbours, gives what running it once for
    those neighbours gives: the list sorted in place by the first run is
    left as it is by the second. *)
Theorem ranking_step_again S S' st :
  Forall (λ t, in_unit (coeff t) = true) (jacc_coeffs st) ->
  ranking_step S' (ranking_step S st).2 = ranking_step S' st.
Proof.
  intros Hunit. run_step.
  by rewrite (list_sort_idempotent coeff _ (in_unit_no_nan _ Hunit)).
Qed.

End recs.

Lemma top_recommendation_most_similar_witness :
  Forall (λ t, in_unit (coeff t) = true) (jacc_coeffs xyz) /\
  recommendations (ranking_step [] xyz).2 = "x" :: ["z"; "y"] /\
  "x" ∉ ([] : list string).
Proof.
  assert (H1 : Forall (λ t : string * string * float, in_unit (coeff t) = true)
                 (jacc_coeffs xyz)).
  { repeat constructor. }
  assert (H2 : recommendations (ranking_step [] xyz).2 = "x" :: ["z"; "y"]) by reflexivity.
  exact (conj H1 (conj H2 (proj1 (top_recommendation_most_similar [] xyz _ _ H1 H2)))).
Defined.

Lemma ranking_step_again_witness :
  Forall (λ t, in_unit (coeff t) = true) (jacc_coeffs xyz) /\
  ranking_step ["z"] (ranking_step [] xyz).2 = ranking_step ["z"] xyz.
Proof.
  assert (H1 : Forall (λ t : string * string * float, in_unit (coeff t) = true)
                 (jacc_coeffs xyz)).
  { repeat constructor. }
  exact (conj H1 (ranking_step_again [] ["z"] xyz H1)).
Defined.

End Ranking.

(** ** [print_similar_movies] *)
Module SimilarMovies.
Import PyFloat Py Notebook FloatOrder FloatOrderMore ListSort Strings Examples Recommender.

Lemma length_list_sort {A} (key : A -> float) reverse l :
  length (list_sort key reverse l) = length l.
Proof. by rewrite (list_sort_perm key reverse l). Qed.

Lemma printed_nil st : printed [] st = st.
Proof. destruct st. unfold printed. cbn. by rewrite app_nil_r. Qed.

Lemma printed_app lines1 lines2 st :
  printed lines2 (printed lines1 st) = printed (lines1 ++ lines2) st.
Proof. unfold printed. cbn. by rewrite app_assoc. Qed.

Lemma print_run line st : print line st = (Ok tt, printed [line] st).
Proof. reflexivity. Qed.

(** The loop of [print_similar_movies] started at index [i] for [k] rounds. *)
Lemma similar_rows_loop (names : gmap Z string) ranked (k i : nat) named rest st :
  (i <= length ranked)%nat ->
  take k (drop i ranked) = named ++ rest ->
  Forall (λ t : Z * Z * float, is_Some (names !! t.1.2)) named ->
  match rest with [] => True | t :: _ => names !! t.1.2 = None end ->
  for_each ((λ j : nat, Z.of_nat j + 0) <$> seq i k)
    (λ idx, t ← lift (list_getitem ranked idx);
            name ← lift (dict_getitem names t.1.2);
            print (similar_row t.1.2 name)) st =
  (match rest with
   | [] => if bool_decide (i + k <= length ranked)%nat then Ok tt else Raise IndexError
   | t :: _ => Raise (KeyError t.1.2)
   end, printed (similar_rows names named) st).
Proof.
  revert i named st. induction k as [|k IH]; intros i named st Hile Htake Hnamed Hrest.
  - cbn in Htake. symmetry in Htake. apply app_eq_nil in Htake as [-> ->].
    cbn. rewrite printed_nil. by rewrite bool_decide_eq_true_2 by lia.
  - cbn [seq fmap list_fmap for_each]. unfold mbind at 1, stmt_bind at 1.
    unfold mbind at 1, stmt_bind at 1, lift at 1.
    rewrite list_getitem_nonneg by lia.
    replace (Z.to_nat (Z.of_nat i + 0)) with i by lia.
    destruct (ranked !! i) as [t|] eqn:Hi.
    + rewrite (drop_S _ _ _ Hi) in Htake. cbn [take] in Htake.
      destruct named as [|t' named].
      * cbn in Htake. subst rest. cbn [similar_rows fmap list_fmap]. rewrite printed_nil.
        unfold mbind, stmt_bind, lift, dict_getitem. by rewrite Hrest.
      * cbn in Htake. injection Htake as <- Htake.
        apply Forall_cons in Hnamed as [[name Hname] Hnamed].
        unfold mbind at 1, stmt_bind at 1, lift at 1, dict_getitem at 1. rewrite Hname.
        rewrite print_run.
        assert (HSi : (S i <= length ranked)%nat) by (apply lookup_lt_Some in Hi; lia).
        rewrite (IH (S i) named _ HSi Htake Hnamed Hrest).
        rewrite printed_app. cbn [similar_rows fmap list_fmap app].
        unfold dict_get. rewrite Hname.
        replace (S i + k)%nat with (i + S k)%nat by lia. done.
    + apply lookup_ge_None in Hi. rewrite drop_ge in Htake by done.
      rewrite take_nil in Htake. symmetry in Htake. apply app_eq_nil in Htake as [-> ->].
      cbn [similar_rows fmap list_fmap]. rewrite printed_nil.
      by rewrite bool_decide_eq_false_2 by lia.
Qed.

(** X16: when the similarity call returns, with scores in [0, 1], and
    the title of [movie_id] is known, the function prints the header and
    then one row per ranked tuple among the first [n], in rank order, as
    long as the titles are known.  If all of the first [n] have a title it
    ends normally when the similarity list has at least [n] tuples (so
    also for [n <= 0], with the header alone) and stops with [IndexError]
    when it has fewer, after the rows of all its tuples; at the first
    tuple without title it stops with the [KeyError] of that id.  The
    other variables of the notebook are left as they were. *)
Theorem print_similar_movies_outcome jaccard_coefficient good_ids
    (names : gmap Z string) movie_id n st coeffs name named rest :
  jaccard_coefficient (ebunch movie_id good_ids) = Ok coeffs ->
  Forall (λ t, in_unit (coeff t) = true) coeffs ->
  names !! movie_id = Some name ->
  take (Z.to_nat n) (list_sort coeff true coeffs) = named ++ rest ->
  Forall (λ t : Z * Z * float, is_Some (names !! t.1.2)) named ->
  match rest with [] => True | t :: _ => names !! t.1.2 = None end ->
  print_similar_movies jaccard_coefficient good_ids names movie_id n st =
    (match rest with
     | [] =>
         if bool_decide (n <= Z.of_nat (length coeffs)) then Ok tt else Raise IndexError
     | t :: _ => Raise (KeyError t.1.2)
     end,
     printed (similar_header name :: similar_rows names named) st).
Proof.
  intros Hcall _ Hname Htake Hnamed Hrest. unfold print_similar_movies.
  unfold mbind at 1, stmt_bind at 1, lift at 1. rewrite Hcall.
  unfold mbind at 1, stmt_bind at 1, lift at 1, dict_getitem at 1. rewrite Hname.
  unfold mbind at 1, stmt_bind at 1. rewrite print_run.
  unfold range, seqZ.
  rewrite (similar_rows_loop names _ (Z.to_nat n) 0 named rest); [|lia|by rewrite drop_0|done..].
  rewrite printed_app. cbn [app]. f_equal.
  destruct rest; [|done].
  rewrite length_list_sort.
  destruct (decide (n <= Z.of_nat (length coeffs))).
  - by rewrite !bool_decide_eq_true_2 by lia.
  - by rewrite !bool_decide_eq_false_2 by lia.
Qed.

Lemma print_similar_movies_outcome_witness :
  toy_jaccard (ebunch 20 four_good_ids) = Ok [(20, 30, 0.5%float); (20, 40, 0.25%float)] /\
  Forall (λ t, in_unit (coeff t) = true) [(20, 30, 0.5%float); (20, 40, 0.25%float)] /\
  three_names !! 20 = Some "Twenty" /\
  take (Z.to_nat 2) (list_sort coeff true [(20, 30, 0.5%float); (20, 40, 0.25%float)])
    = [(20, 30, 0.5%float)] ++ [(20, 40, 0.25%float)] /\
  print_similar_movies toy_jaccard four_good_ids three_names 20 2 fresh_state =
    (Raise (KeyError 40),
     printed (similar_header "Twenty" :: similar_rows three_names [(20, 30, 0.5%float)])
       fresh_state).
Proof.
  assert (H0 : toy_jaccard (ebunch 20 four_good_ids)
               = Ok [(20, 30, 0.5%float); (20, 40, 0.25%float)]) by reflexivity.
  assert (Hu : Forall (λ t : Z * Z * float, in_unit (coeff t) = true)
                 [(20, 30, 0.5%float); (20, 40, 0.25%float)]).
  { repeat constructor. }
  assert (H1 : three_names !! 20 = Some "Twenty") by reflexivity.
  assert (H2 : take (Z.to_nat 2)
                 (list_sort coeff true [(20, 30, 0.5%float); (20, 40, 0.25%float)])
               = [(20, 30, 0.5%float)] ++ [(20, 40, 0.25%float)]) by reflexivity.
  assert (H3 : Forall (λ t : Z * Z * float, is_Some (three_names !! t.1.2))
                 [(20, 30, 0.5%float)]).
  { repeat constructor. by eexists. }
  assert (H4 : three_names !! 40 = None) by reflexivity.
  exact (conj H0 (conj Hu (conj H1 (conj H2
    (print_similar_movies_outcome toy_jaccard four_good_ids three_names 20 2 fresh_state
       _ "Twenty" [(20, 30, 0.5%float)] [(20, 40, 0.25%float)] H0 Hu H1 H2 H3 H4))))).
Defined.

(** X17: the function stops before it prints anything in two cases.  When
    the similarity call raises, as NetworkX does for a [movie_id] that is
    not a node of the graph, the function stops with that exception,
    whether or not [movie_id] has a title.  When the call returns and
    [movie_id] has no title, it stops with the [KeyError] of [movie_id]. *)
Theorem print_similar_movies_stops_before_header jaccard_coefficient good_ids
    (names : gmap Z string) movie_id n st :
  (forall e, jaccard_coefficient (ebunch movie_id good_ids) = Raise e ->
     print_similar_movies jaccard_coefficient good_ids names movie_id n st =
       (Raise e, st)) /\
  (forall coeffs, jaccard_coefficient (ebunch movie_id good_ids) = Ok coeffs ->
     names !! movie_id = None ->
     print_similar_movies jaccard_coefficient good_ids names movie_id n st =
       (Raise (KeyError movie_id), st)).
Proof.
  split.
  - intros e Hcall. unfold print_similar_movies.
    unfold mbind at 1, stmt_bind at 1, lift at 1. by rewrite Hcall.
  - intros coeffs Hcall Hname. unfold print_similar_movies.
    unfold mbind at 1, stmt_bind at 1, lift at 1. rewrite Hcall.
    unfold mbind at 1, stmt_bind at 1, lift at 1, dict_getitem at 1. by rewrite Hname.
Qed.

(** Movie 99 is not a node of the toy graph: with or without a title the
    call's exception is what leaves the function; movie 40 is a node
    without title. *)
Lemma print_similar_movies_stops_before_header_witness :
  toy_jaccard (ebunch 99 four_good_ids) = Raise (NodeNotFound 99) /\
  print_similar_movies toy_jaccard four_good_ids (<[99 := "Ninety-nine"]> three_names)
      99 10 fresh_state
    = (Raise (NodeNotFound 99), fresh_state) /\
  toy_jaccard (ebunch 40 four_good_ids)
    = Ok [(40, 20, 0.25%float); (40, 30, 0.5%float)] /\
  three_names !! 40 = None /\
  print_similar_movies toy_jaccard four_good_ids three_names 40 10 fresh_state
    = (Raise (KeyError 40), fresh_state).
Proof.
  assert (H1 : toy_jaccard (ebunch 99 four_good_ids) = Raise (NodeNotFound 99))
    by reflexivity.
  assert (H2 : toy_jaccard (ebunch 40 four_good_ids)
               = Ok [(40, 20, 0.25%float); (40, 30, 0.5%float)]) by reflexivity.
  assert (H3 : three_names !! 40 = None) by reflexivity.
  exact (conj H1 (conj
    (proj1 (print_similar_movies_stops_before_header toy_jaccard four_good_ids
              (<[99 := "Ninety-nine"]> three_names) 99 10 fresh_state) _ H1)
    (conj H2 (conj H3
      (proj2 (print_similar_movies_stops_before_header toy_jaccard four_good_ids
                three_names 40 10 fresh_state) _ H2 H3))))).
Defined.

End SimilarMovies.

(** ** Comparing two PageRank results *)
Module RankNodes.
Import Py Centrality.

Lemma insert_int_perm x l : insert_int x l ≡ₚ x :: l.
Proof.
  induction l as [|y l IH]; cbn; [done|].
  destruct (y <? x); [|done]. rewrite IH. apply Permutation_swap.
Qed.

Lemma sorted_ints_perm l : sorted_ints l ≡ₚ l.
Proof.
  induction l as [|x l IH]; [done|].
  change (sorted_ints (x :: l)) with (insert_int x (sorted_ints l)).
  by rewrite insert_int_perm, IH.
Qed.

Lemma insert_int_sorted x l :
  StronglySorted Z.le l -> StronglySorted Z.le (insert_int x l).
Proof.
  induction 1 as [|y l Hs IH Hy]; cbn; [repeat constructor|].
  destruct (Z.ltb_spec y x) as [Hlt|Hge].
  - constructor; [done|]. rewrite insert_int_perm. constructor; [lia|done].
  - constructor; [by constructor|]. constructor; [done|].
    eapply Forall_impl; [exact Hy|]. cbn. lia.
Qed.

Lemma sorted_ints_sorted l : StronglySorted Z.le (sorted_ints l).
Proof.
  induction l as [|x l IH]; [constructor|].
  change (sorted_ints (x :: l)) with (insert_int x (sorted_ints l)).
  by apply insert_int_sorted.
Qed.

(** [sorted] gives equal lists exactly for rearrangements of one list. *)
Lemma sorted_ints_eq_iff l1 l2 : sorted_ints l1 = sorted_ints l2 <-> l1 ≡ₚ l2.
Proof.
  split.
  - intros Heq. by rewrite <- (sorted_ints_perm l1), Heq, sorted_ints_perm.
  - intros Hp. apply (StronglySorted_unique Z.le); [apply sorted_ints_sorted..|].
    by rewrite !sorted_ints_perm.
Qed.

Lemma elem_of_dict_keys (d : gmap Z float) k : k ∈ dict_keys d <-> k ∈ dom d.
Proof.
  unfold dict_keys. rewrite elem_of_dom, list_elem_of_fmap. split.
  - intros ([k' v] & -> & Hkv%elem_of_map_to_list). by exists v.
  - intros [v Hv]. exists (k, v). split; [done|]. by apply elem_of_map_to_list.
Qed.

(** X18: [sorted(nx_pr_results) == sorted(nxcg_pr_results)] is true exactly
    when the two results have the same nodes as keys; the scores play no
    part in it (two results over the same nodes always compare equal), and
    neither does the order in which a dict lists its keys. *)
Theorem same_rank_nodes_iff (nx_pr_results nxcg_pr_results : gmap Z float) :
  (same_rank_nodes nx_pr_results nxcg_pr_results = true <->
     dom nx_pr_results = dom nxcg_pr_results) /\
  (forall f g : float -> float,
     same_rank_nodes (f <$> nx_pr_results) (g <$> nx_pr_results) = true) /\
  (forall keys, keys ≡ₚ dict_keys nx_pr_results ->
     sorted_ints keys = sorted_ints (dict_keys nx_pr_results)).
Proof.
  assert (Hiff : forall d1 d2 : gmap Z float,
            same_rank_nodes d1 d2 = true <-> dom d1 = dom d2).
  { intros d1 d2. unfold same_rank_nodes. rewrite bool_decide_eq_true, sorted_ints_eq_iff.
    split.
    - intros Hp. apply set_eq. intros k. by rewrite <- !elem_of_dict_keys, Hp.
    - intros Hd. apply NoDup_Permutation; [apply NoDup_fst_map_to_list..|].
      intros k. by rewrite !elem_of_dict_keys, Hd. }
  split_and!.
  - apply Hiff.
  - intros f g. apply Hiff. by rewrite !dom_fmap_L.
  - intros keys Hp. by apply sorted_ints_eq_iff.
Qed.

End RankNodes.

(** ** Fetching the dataset *)
Module Fetch.
Import Py Download Examples.

Lemma exists_true p w : exists_ p w = true <-> is_Some (files w !! p).
Proof. unfold exists_. apply bool_decide_eq_true. Qed.

Lemma exists_false p w : exists_ p w = false <-> files w !! p = None.
Proof. unfold exists_. rewrite bool_decide_eq_false. symmetry. apply eq_None_not_Some. Qed.

Lemma extract_run members zip member w z :
  files w !! zip = Some z ->
  extract members zip member w =
    match members z !! member with
    | Some content =>
        (Ok tt, {| files := <[member := content]> (files w); requested := requested w |})
    | None => (Raise (KeyError member), w)
    end.
Proof.
  intros Hz. unfold extract, mbind, stmt_bind, get, lift, dict_getitem. rewrite Hz.
  by destruct (members z !! member).
Qed.

(** Extraction once the archive at [zip_file] is [z]. *)
Lemma extract_both_run members w z :
  files w !! zip_file = Some z ->
  (extract members zip_file ratings_csv;; extract members zip_file movies_csv) w =
    match members z !! ratings_csv with
    | None => (Raise (KeyError ratings_csv), w)
    | Some r =>
        let w1 := {| files := <[ratings_csv := r]> (files w); requested := requested w |} in
        match members z !! movies_csv with
        | None => (Raise (KeyError movies_csv), w1)
        | Some m =>
            (Ok tt, {| files := <[movies_csv := m]> (files w1); requested := requested w |})
        end
    end.
Proof.
  intros Hz. unfold mbind at 1, stmt_bind at 1. rewrite (extract_run _ _ _ _ _ Hz).
  destruct (members z !! ratings_csv) as [r|]; [|done]. cbn zeta.
  rewrite (extract_run _ _ _ _ z).
  - by destruct (members z !! movies_csv).
  - cbn [files]. by rewrite lookup_insert_ne.
Qed.

(** The archive the cell reads and the state in which it reads it. *)
Lemma download_cell_run serve members w :
  download_cell serve members w =
    if exists_ ratings_csv w && exists_ movies_csv w then (Ok tt, w)
    else
      match files w !! zip_file with
      | Some z =>
          (extract members zip_file ratings_csv;; extract members zip_file movies_csv) w
      | None =>
          (extract members zip_file ratings_csv;; extract members zip_file movies_csv)
            {| files := <[zip_file := serve url]> (files w);
               requested := requested w ++ [url] |}
      end.
Proof.
  unfold download_cell. unfold mbind at 1, stmt_bind at 1, get at 1.
  destruct (exists_ ratings_csv w), (exists_ movies_csv w); cbn [negb orb andb]; try done.
  all: unfold mbind at 1, stmt_bind at 1.
  all: destruct (exists_ zip_file w) eqn:Hz; cbn [negb].
  all: try (apply exists_true in Hz as [z Hz]; rewrite Hz; done).
  all: apply exists_false in Hz; rewrite Hz; done.
Qed.

(** X19: when both csv files exist the cell changes nothing: no request,
    no file written.  Whenever the cell ends normally both csv files
    exist afterwards, so that running it again changes nothing. *)
Theorem download_cell_cached serve members w :
  (is_Some (files w !! ratings_csv) -> is_Some (files w !! movies_csv) ->
     download_cell serve members w = (Ok tt, w)) /\
  (forall w', download_cell serve members w = (Ok tt, w') ->
     is_Some (files w' !! ratings_csv) /\ is_Some (files w' !! movies_csv) /\
     download_cell serve members w' = (Ok tt, w')).
Proof.
  assert (Hc : forall v, is_Some (files v !! ratings_csv) -> is_Some (files v !! movies_csv) ->
     download_cell serve members v = (Ok tt, v)).
  { intros v Hr%exists_true Hm%exists_true. by rewrite download_cell_run, Hr, Hm. }
  split; [apply Hc|]. intros w' Hrun.
  assert (Hboth : is_Some (files w' !! ratings_csv) /\ is_Some (files w' !! movies_csv)).
  { rewrite download_cell_run in Hrun.
    destruct (exists_ ratings_csv w) eqn:Hr, (exists_ movies_csv w) eqn:Hm; cbn [andb] in Hrun.
    1: { injection Hrun as <-. by apply exists_true in Hr, Hm. }
    all: destruct (files w !! zip_file) as [z|] eqn:Hz.
    all: (erewrite extract_both_run in Hrun; [|first [exact Hz | cbn [files]; apply lookup_insert_eq]]).
    all: repeat match type of Hrun with context [match ?o with _ => _ end] =>
                  destruct o; cbn zeta in Hrun; try done end.
    all: injection Hrun as <-; cbn [files].
    all: split; [rewrite lookup_insert_ne by done; rewrite lookup_insert_eq; by eexists
                |rewrite lookup_insert_eq; by eexists]. }
  destruct Hboth as [Hr Hm]. split_and!; [done..|]. by apply Hc.
Qed.


(** X20: the cell sends at most one request, the one for the archive, and
    sends it exactly when a csv file is missing and no local archive
    exists; a local archive is never replaced. *)
Theorem download_cell_requests serve members w :
  requested (download_cell serve members w).2 =
    requested w ++
      (if (negb (exists_ ratings_csv w) || negb (exists_ movies_csv w))
          && negb (exists_ zip_file w)
       then [url] else []) /\
  (is_Some (files w !! zip_file) ->
     files (download_cell serve members w).2 !! zip_file = files w !! zip_file).
Proof.
  rewrite download_cell_run.
  destruct (exists_ ratings_csv w) eqn:Hr, (exists_ movies_csv w) eqn:Hm;
    cbn [andb orb negb].
  1: { cbn [snd]. by rewrite app_nil_r. }
  all: destruct (files w !! zip_file) as [z|] eqn:Hz.
  all: (erewrite extract_both_run; [|first [exact Hz | cbn [files]; apply lookup_insert_eq]]).
  all: try (assert (Hez : exists_ zip_file w = true) by (apply exists_true; by eexists)).
  all: try (assert (Hez : exists_ zip_file w = false) by (by apply exists_false)).
  all: rewrite Hez; cbn [negb].
  all: repeat match goal with |- context [match ?o with _ => _ end] =>
                destruct o; cbn zeta end.
  all: cbn [snd requested files]; rewrite ?app_nil_r.
  all: split; [done|]; try by intros [? [=]].
  all: intros _; rewrite ?lookup_insert_ne by done; done.
Qed.





End Fetch.
